(** * TaskMaster: the file-backed task store and the task service

    A shallow embedding of [internal/storage] (the [FileStorage] type),
    [internal/models] (the [Task] record) and [internal/app] (the [App]
    service), with the library calls they make modelled next to them:

    - the tasks directory is a finite map from entry names to nodes;
    - [time.Now()] is an argument [now] of every operation that calls it;
    - [encoding/json] is an interface ([JSON]); the properties that need
      decode-after-encode to be the identity take it as a hypothesis;
    - [int64] arithmetic is on [Z] with the wrap-around written out. *)

From Stdlib Require Import ZArith NArith Ascii Lia.
From stdpp Require Import gmap strings list fin_maps pretty sorting.

#[local] Open Scope Z_scope.

(* ===================================================================== *)
(** ** Go library calls used by the store *)
(* ===================================================================== *)

Module Int64.

Definition MaxInt64 : Z := 2 ^ 63 - 1.
Definition MinInt64 : Z := - 2 ^ 63.

Definition in_range (z : Z) : Prop := MinInt64 ≤ z ≤ MaxInt64.

(** The value an [int64] holds after an arithmetic result [z]. *)
Definition wrap (z : Z) : Z := (z + 2 ^ 63) `mod` 2 ^ 64 - 2 ^ 63.

End Int64.

Module Strings.

(** [strings.HasPrefix]:
    [len(s) >= len(prefix) && s[:len(prefix)] == prefix]. *)
Definition HasPrefix (s prefix : string) : bool := String.prefix prefix s.

(** [strings.HasSuffix]:
    [len(s) >= len(suffix) && s[len(s)-len(suffix):] == suffix]. *)
Definition HasSuffix (s suffix : string) : bool :=
  (String.length suffix <=? String.length s)%nat &&
  String.eqb
    (String.substring (String.length s - String.length suffix)
                      (String.length suffix) s)
    suffix.

(** [strings.TrimPrefix]. *)
Definition TrimPrefix (s prefix : string) : string :=
  if HasPrefix s prefix
  then String.substring (String.length prefix)
                        (String.length s - String.length prefix) s
  else s.

(** [strings.TrimSuffix]. *)
Definition TrimSuffix (s suffix : string) : string :=
  if HasSuffix s suffix
  then String.substring 0 (String.length s - String.length suffix) s
  else s.

End Strings.

Module Strconv.

(** The value of a decimal digit, [None] for any other byte. *)
Definition digit_of (c : ascii) : option N :=
  let n := N_of_ascii c in
  if (48 <=? n)%N && (n <=? 57)%N then Some (n - 48)%N else None.

(** Reads the longest run of decimal digits at the head of [s]: the
    number read (continuing from [acc]) and what is left of [s]. *)
Fixpoint scan_digits (acc : N) (s : string) : N * string :=
  match s with
  | String c r =>
      match digit_of c with
      | Some d => scan_digits (10 * acc + d)%N r
      | None => (acc, s)
      end
  | EmptyString => (acc, s)
  end.

(** [strconv.ParseUint(s, 10, 64)] up to its range check: the empty
    string and any byte that is not a digit are syntax errors.  The
    number is returned unbounded; [ParseInt] below rejects what does not
    fit, which covers the values [ParseUint] itself reports as out of
    range. *)
Definition ParseUint (s : string) : option N :=
  match s with
  | EmptyString => None
  | _ => match scan_digits 0 s with
         | (un, EmptyString) => Some un
         | _ => None
         end
  end.

(** [strconv.ParseInt(s, 10, 64)]: an optional sign, then [ParseUint];
    [None] stands for any error (syntax or range). *)
Definition ParseInt (s : string) : option Z :=
  match s with
  | EmptyString => None
  | String c r =>
      let neg := Ascii.eqb c "-" in
      let s' := if Ascii.eqb c "+" || neg then r else s in
      match ParseUint s' with
      | None => None
      | Some un =>
          let cutoff := (2 ^ 63)%N in
          if negb neg && (cutoff <=? un)%N then None
          else if neg && (cutoff <? un)%N then None
          else Some (if neg then - Z.of_N un else Z.of_N un)
      end
  end.

(** [fmt.Sprintf("%d", z)]. *)
Definition FormatInt (z : Z) : string := pretty z.

End Strconv.

(* ===================================================================== *)
(** ** The tasks directory *)
(* ===================================================================== *)

Module OS.

(** An entry of the tasks directory: a regular file with its bytes, or a
    sub-directory, of which only emptiness matters ([os.Remove]). *)
Inductive Node :=
| File (data : string)
| Dir (empty : bool).

Definition IsDir (n : Node) : bool :=
  match n with Dir _ => true | File _ => false end.

Inductive Errno := ENOENT | EISDIR | ENOTEMPTY.

(** [os.IsNotExist]. *)
Definition IsNotExist (e : Errno) : bool :=
  match e with ENOENT => true | _ => false end.

(** The contents of the tasks directory ([s.tasksDir]), by entry name.
    The process is taken to have the permissions it needs and the
    device to have room: an operation fails only for the shape of the
    directory (a missing entry, a directory where a file is expected). *)
Abbreviation FS := (gmap string Node).

(** [os.MkdirAll(s.tasksDir, 0755)]: the directory exists (it was
    created by [NewFileStorage]), so this is a successful no-op. *)
Definition MkdirAll (fs : FS) : FS * option Errno := (fs, None).

Definition ReadFile (name : string) (fs : FS) : Errno + string :=
  match fs !! name with
  | None => inl ENOENT
  | Some (Dir _) => inl EISDIR
  | Some (File data) => inr data
  end.

(** [os.WriteFile]: creates or truncates the file. *)
Definition WriteFile (name : string) (data : string) (fs : FS)
  : FS * option Errno :=
  match fs !! name with
  | Some (Dir _) => (fs, Some EISDIR)
  | _ => (<[name := File data]> fs, None)
  end.

Definition Stat (name : string) (fs : FS) : Errno + Node :=
  match fs !! name with
  | None => inl ENOENT
  | Some n => inr n
  end.

(** [os.Remove]: removes a file or an empty directory. *)
Definition Remove (name : string) (fs : FS) : FS * option Errno :=
  match fs !! name with
  | None => (fs, Some ENOENT)
  | Some (Dir false) => (fs, Some ENOTEMPTY)
  | Some _ => (delete name fs, None)
  end.

Definition name_le (a b : string * Node) : Prop := String.le a.1 b.1.

#[global] Instance name_le_dec : RelDecision name_le.
Proof. intros a b. unfold name_le. apply _. Defined.

(** [os.ReadDir]: all entries, sorted by file name. *)
Definition ReadDir (fs : FS) : Errno + list (string * Node) :=
  inr (merge_sort name_le (map_to_list fs)).

End OS.

(* ===================================================================== *)
(** ** [models.Task] *)
(* ===================================================================== *)

Module Models.

(** A [time.Time] as stored in a record; [0] is the zero time, the
    "no due date" sentinel. *)
Definition Time := Z.

(** [models.Priority], an [int]. *)
Definition Priority := Z.
Definition Low : Priority := 0.
Definition Medium : Priority := 1.
Definition High : Priority := 2.
Definition Critical : Priority := 3.

Definition Priority_String (p : Priority) : string :=
  if decide (p = Low) then "Low"
  else if decide (p = Medium) then "Medium"
  else if decide (p = High) then "High"
  else if decide (p = Critical) then "Critical"
  else "Unknown".

(** The field [Priority] is [Priority_] here: the name is taken by its
    type. *)
Record Task := mkTask {
  ID : Z;
  Title : string;
  Description : string;
  DueDate : Time;
  Priority_ : Priority;
  Completed : bool;
  Progress : Z;
  CreatedAt : Time;
  UpdatedAt : Time
}.

(** Field assignments [task.F = v]. *)
Definition set_ID (v : Z) (t : Task) : Task :=
  mkTask v (Title t) (Description t) (DueDate t) (Priority_ t)
         (Completed t) (Progress t) (CreatedAt t) (UpdatedAt t).
Definition set_Title (v : string) (t : Task) : Task :=
  mkTask (ID t) v (Description t) (DueDate t) (Priority_ t)
         (Completed t) (Progress t) (CreatedAt t) (UpdatedAt t).
Definition set_Description (v : string) (t : Task) : Task :=
  mkTask (ID t) (Title t) v (DueDate t) (Priority_ t)
         (Completed t) (Progress t) (CreatedAt t) (UpdatedAt t).
Definition set_DueDate (v : Time) (t : Task) : Task :=
  mkTask (ID t) (Title t) (Description t) v (Priority_ t)
         (Completed t) (Progress t) (CreatedAt t) (UpdatedAt t).
Definition set_Priority (v : Priority) (t : Task) : Task :=
  mkTask (ID t) (Title t) (Description t) (DueDate t) v
         (Completed t) (Progress t) (CreatedAt t) (UpdatedAt t).
Definition set_Completed (v : bool) (t : Task) : Task :=
  mkTask (ID t) (Title t) (Description t) (DueDate t) (Priority_ t)
         v (Progress t) (CreatedAt t) (UpdatedAt t).
Definition set_Progress (v : Z) (t : Task) : Task :=
  mkTask (ID t) (Title t) (Description t) (DueDate t) (Priority_ t)
         (Completed t) v (CreatedAt t) (UpdatedAt t).
Definition set_CreatedAt (v : Time) (t : Task) : Task :=
  mkTask (ID t) (Title t) (Description t) (DueDate t) (Priority_ t)
         (Completed t) (Progress t) v (UpdatedAt t).
Definition set_UpdatedAt (v : Time) (t : Task) : Task :=
  mkTask (ID t) (Title t) (Description t) (DueDate t) (Priority_ t)
         (Completed t) (Progress t) (CreatedAt t) v.

#[global] Instance Task_eq_dec : EqDecision Task.
Proof. solve_decision. Defined.

End Models.

(* ===================================================================== *)
(** ** Errors *)
(* ===================================================================== *)

(** One constructor per error the store and the service build; an
    operating-system cause is kept where the code wraps it with [%w]. *)
Inductive error :=
| ErrMkdirTasksDir (cause : OS.Errno)  (* failed to create tasks directory *)
| ErrReadCounter (cause : OS.Errno)    (* failed to read counter file *)
| ErrParseCounter                      (* failed to parse counter file *)
| ErrMarshalCounter                    (* failed to marshal counter *)
| ErrWriteCounter (cause : OS.Errno)   (* failed to write counter file *)
| ErrMarshalTask                       (* failed to marshal task *)
| ErrWriteTask (cause : OS.Errno)      (* failed to write task file *)
| ErrTaskNotFound (id : Z)             (* task with ID %d not found *)
| ErrReadTask (cause : OS.Errno)       (* failed to read task file *)
| ErrParseTask                         (* failed to parse task file *)
| ErrReadTasksDir (cause : OS.Errno)   (* failed to read tasks directory *)
| ErrAccessTask (cause : OS.Errno)     (* failed to access task file *)
| ErrDeleteTask (cause : OS.Errno)     (* failed to delete task file *)
| ErrEmptyTitle                        (* task title cannot be empty *)
| ErrProgressRange (progress : Z)      (* progress must be between 0 and 100 *)
| ErrCreateTask (cause : error).       (* failed to create task: %w *)

(** The result of a Go function returning [(T, error)]. *)
Inductive result (A : Type) :=
| Ok (a : A)
| Err (e : error).
Arguments Ok {A} a.
Arguments Err {A} e.

(** The spec's error classes. *)
Definition is_not_found (e : error) : bool :=
  match e with ErrTaskNotFound _ => true | _ => false end.
Definition is_validation (e : error) : bool :=
  match e with ErrEmptyTitle | ErrProgressRange _ => true | _ => false end.

(* ===================================================================== *)
(** ** [encoding/json] *)
(* ===================================================================== *)

(** What the store asks of [encoding/json]: [json.MarshalIndent] and
    [json.Unmarshal] at the two types it stores, a [Task] and the counter
    struct [{NextID int64}].  [None] is a returned error. *)
Class JSON := {
  marshalTask : Models.Task → option string;
  unmarshalTask : string → option Models.Task;
  marshalCounter : Z → option string;
  unmarshalCounter : string → option Z
}.

(** Decoding what was encoded gives the value back.  For [encoding/json]
    this is so of the records the program handles: texts that are valid
    UTF-8, and times taken as the instants they denote (the encoding
    keeps the instant, to the nanosecond, and drops the monotonic clock
    reading of [time.Now()]). *)
Definition task_round_trip (J : JSON) : Prop :=
  ∀ t data, marshalTask t = Some data → unmarshalTask data = Some t.
Definition counter_round_trip (J : JSON) : Prop :=
  ∀ n data, marshalCounter n = Some data → unmarshalCounter data = Some n.

(** Encoding does not fail.  For a [Task], [encoding/json] fails only on
    a time whose year is outside [0,9999]; [Time] stands for the times it
    can write.  For the counter struct it never fails. *)
Definition task_marshal_total (J : JSON) : Prop :=
  ∀ t, is_Some (marshalTask t).
Definition counter_marshal_total (J : JSON) : Prop :=
  ∀ n, is_Some (marshalCounter n).

(* ===================================================================== *)
(** ** [storage.FileStorage] *)
(* ===================================================================== *)

Module Storage.
Import Models OS.

(** The mutable part of a [FileStorage]; [baseDir], [tasksDir] and
    [counterFile] never change after [NewFileStorage], and entry names
    below are relative to [tasksDir].  The mutex [mu] has no effect on a
    single sequence of calls. *)
Record FileStorage := mkFileStorage { nextID : Z }.

Definition counterFile : string := "counter.json".

(** [getTaskFilename]: the entry [task_<id>.json] of the tasks directory. *)
Definition getTaskFilename (id : Z) : string :=
  "task_" +:+ Strconv.FormatInt id +:+ ".json".

(** By how the tasks were ordered: [a] may stand before [b]. *)
Definition id_le (a b : Task) : Prop := ID a ≤ ID b.

#[global] Instance id_le_dec : RelDecision id_le.
Proof. intros a b. unfold id_le. apply _. Defined.

(** [sort.Slice(tasks, func(i, j) bool { return tasks[i].ID < tasks[j].ID })].
    [sort.Slice] promises a sorted permutation and no more (it is not
    stable); the properties below use only that much of this function. *)
Definition sort_by_ID (tasks : list Task) : list Task :=
  merge_sort id_le tasks.

Section WithJSON.
Context {J : JSON}.

Definition saveCounter (s : FileStorage) (fs : FS) : FS * option error :=
  match marshalCounter (nextID s) with
  | None => (fs, Some ErrMarshalCounter)
  | Some data =>
      match WriteFile counterFile data fs with
      | (fs, Some e) => (fs, Some (ErrWriteCounter e))
      | (fs, None) => (fs, None)
      end
  end.

Definition Init (s : FileStorage) (fs : FS)
  : FileStorage * FS * option error :=
  match MkdirAll fs with
  | (fs, Some e) => (s, fs, Some (ErrMkdirTasksDir e))
  | (fs, None) =>
      match ReadFile counterFile fs with
      | inl e =>
          if IsNotExist e then
            let s := mkFileStorage 1 in
            let '(fs, err) := saveCounter s fs in
            (s, fs, err)
          else (s, fs, Some (ErrReadCounter e))
      | inr counter =>
          match unmarshalCounter counter with
          | None => (s, fs, Some ErrParseCounter)
          | Some n => (mkFileStorage n, fs, None)
          end
      end
  end.

(** [Close]: nothing to close. *)
Definition Close (s : FileStorage) : option error := None.

Definition saveTask (task : Task) (fs : FS) : FS * option error :=
  let filename := getTaskFilename (ID task) in
  match marshalTask task with
  | None => (fs, Some ErrMarshalTask)
  | Some data =>
      match WriteFile filename data fs with
      | (fs, Some e) => (fs, Some (ErrWriteTask e))
      | (fs, None) => (fs, None)
      end
  end.

(** [CreateTask] writes through its [*models.Task] argument: the task as
    the caller sees it afterwards is returned next to the error. *)
Definition CreateTask (now : Time) (task : Task) (s : FileStorage) (fs : FS)
  : FileStorage * FS * Task * option error :=
  let task := set_ID (nextID s) task in
  let s := mkFileStorage (Int64.wrap (nextID s + 1)) in
  let task := set_CreatedAt now task in
  let task := set_UpdatedAt now task in
  match saveCounter s fs with
  | (fs, Some err) => (s, fs, task, Some err)
  | (fs, None) =>
      let '(fs, err) := saveTask task fs in
      (s, fs, task, err)
  end.

Definition GetTask (id : Z) (fs : FS) : result Task :=
  let filename := getTaskFilename id in
  match ReadFile filename fs with
  | inl e =>
      if IsNotExist e then Err (ErrTaskNotFound id)
      else Err (ErrReadTask e)
  | inr data =>
      match unmarshalTask data with
      | None => Err ErrParseTask
      | Some task => Ok task
      end
  end.

(** The body of the loop of [GetAllTasks], over the entries still to
    visit, with the tasks appended so far. *)
Fixpoint GetAllTasks_loop (fs : FS) (files : list (string * Node))
    (tasks : list Task) : list Task :=
  match files with
  | [] => tasks
  | (name, node) :: files =>
      if IsDir node || negb (Strings.HasPrefix name "task_")
         || negb (Strings.HasSuffix name ".json")
      then GetAllTasks_loop fs files tasks
      else
        let idStr := Strings.TrimPrefix name "task_" in
        let idStr := Strings.TrimSuffix idStr ".json" in
        match Strconv.ParseInt idStr with
        | None => GetAllTasks_loop fs files tasks
        | Some id =>
            match GetTask id fs with
            | Err _ => GetAllTasks_loop fs files tasks
            | Ok task => GetAllTasks_loop fs files (tasks ++ [task])
            end
        end
  end.

Definition GetAllTasks (fs : FS) : result (list Task) :=
  match ReadDir fs with
  | inl e => Err (ErrReadTasksDir e)
  | inr files => Ok (sort_by_ID (GetAllTasks_loop fs files []))
  end.

(** [UpdateTask] stamps [UpdatedAt] through its pointer argument once the
    task is known to exist. *)
Definition UpdateTask (now : Time) (task : Task) (fs : FS)
  : FS * Task * option error :=
  match GetTask (ID task) fs with
  | Err err => (fs, task, Some err)
  | Ok _ =>
      let task := set_UpdatedAt now task in
      let '(fs, err) := saveTask task fs in
      (fs, task, err)
  end.

Definition DeleteTask (id : Z) (fs : FS) : FS * option error :=
  let filename := getTaskFilename id in
  match Stat filename fs with
  | inl e =>
      if IsNotExist e then (fs, Some (ErrTaskNotFound id))
      else (fs, Some (ErrAccessTask e))
  | inr _ =>
      match Remove filename fs with
      | (fs, Some e) => (fs, Some (ErrDeleteTask e))
      | (fs, None) => (fs, None)
      end
  end.

Definition CompleteTask (now : Time) (id : Z) (fs : FS)
  : FS * option error :=
  match GetTask id fs with
  | Err err => (fs, Some err)
  | Ok task =>
      let task := set_Completed true task in
      let task := set_Progress 100 task in
      let task := set_UpdatedAt now task in
      saveTask task fs
  end.

Definition UpdateTaskProgress (now : Time) (id : Z) (progress : Z) (fs : FS)
  : FS * option error :=
  match GetTask id fs with
  | Err err => (fs, Some err)
  | Ok task =>
      let task := set_Progress progress task in
      let task := set_UpdatedAt now task in
      let task := if decide (progress = 100) then set_Completed true task
                  else task in
      saveTask task fs
  end.

End WithJSON.
End Storage.

(* ===================================================================== *)
(** ** [app.App] *)
(* ===================================================================== *)

(** The service holds a [storage.Storage]; the program only ever gives it
    a [*FileStorage] ([main]), whose methods are called here directly. *)
Module App.
Import Models OS.

Section WithJSON.
Context {J : JSON}.

Definition Initialize := Storage.Init.

Definition CreateTask (now : Time) (title desc : string) (dueDate : Time)
    (priority : Priority) (s : Storage.FileStorage) (fs : FS)
  : Storage.FileStorage * FS * result Task :=
  if decide (title = "") then (s, fs, Err ErrEmptyTitle)
  else
    let task := mkTask 0 title desc dueDate priority false 0 0 0 in
    match Storage.CreateTask now task s fs with
    | (s, fs, _, Some err) => (s, fs, Err (ErrCreateTask err))
    | (s, fs, task, None) => (s, fs, Ok task)
    end.

Definition GetTask := Storage.GetTask.
Definition GetAllTasks := Storage.GetAllTasks.
Definition DeleteTask := Storage.DeleteTask.
Definition CompleteTask := Storage.CompleteTask.

Definition UpdateTaskProgress (now : Time) (id : Z) (progress : Z) (fs : FS)
  : FS * option error :=
  if decide (progress < 0 ∨ progress > 100)
  then (fs, Some (ErrProgressRange progress))
  else Storage.UpdateTaskProgress now id progress fs.

Definition UpdateTaskDetails (now : Time) (id : Z) (title desc : string)
    (dueDate : Time) (priority : Priority) (fs : FS) : FS * option error :=
  match GetTask id fs with
  | Err err => (fs, Some err)
  | Ok task =>
      let task := set_Title title task in
      let task := set_Description desc task in
      let task := set_DueDate dueDate task in
      let task := set_Priority priority task in
      let '(fs, _, err) := Storage.UpdateTask now task fs in
      (fs, err)
  end.

End WithJSON.
End App.

(* ===================================================================== *)
(** ** A concrete codec *)
(* ===================================================================== *)

(** An instance of [JSON] to run the store on: the fields of a record in
    order, numbers in decimal closed by [;], texts preceded by their
    length and [:], a flag as [T] or [F].  It shows that the codec
    hypotheses can be met and lets the operations be evaluated on a
    concrete directory; nothing else depends on its format. *)
Module TextJSON.
Import Models.

Definition enc_Z (z : Z) : string := pretty z +:+ ";".

Definition enc_string (s : string) : string :=
  pretty (N.of_nat (String.length s)) +:+ ":" +:+ s.

Definition enc_bool (b : bool) : string := if b then "T" else "F".

(** A decimal number closed by the byte [stop]; the rest of the input. *)
Definition dec_N_until (stop : ascii) (s : string) : option (N * string) :=
  match s with
  | EmptyString => None
  | String c _ =>
      match Strconv.digit_of c with
      | None => None
      | Some _ =>
          match Strconv.scan_digits 0 s with
          | (n, String c' r) => if Ascii.eqb c' stop then Some (n, r) else None
          | _ => None
          end
      end
  end.

Definition dec_Z (s : string) : option (Z * string) :=
  match s with
  | String c r =>
      if Ascii.eqb c "-"
      then '(n, r) ← dec_N_until ";" r; Some (- Z.of_N n, r)
      else '(n, r) ← dec_N_until ";" s; Some (Z.of_N n, r)
  | EmptyString => None
  end.

(** The first [n] bytes of [s] and the rest. *)
Fixpoint split_at (n : nat) (s : string) : option (string * string) :=
  match n with
  | O => Some (EmptyString, s)
  | S n =>
      match s with
      | EmptyString => None
      | String c r => '(a, b) ← split_at n r; Some (String c a, b)
      end
  end.

Definition dec_string (s : string) : option (string * string) :=
  '(n, r) ← dec_N_until ":" s; split_at (N.to_nat n) r.

Definition dec_bool (s : string) : option (bool * string) :=
  match s with
  | String c r =>
      if Ascii.eqb c "T" then Some (true, r)
      else if Ascii.eqb c "F" then Some (false, r)
      else None
  | EmptyString => None
  end.

Definition encode_task (t : Task) : string :=
  enc_Z (ID t) +:+ enc_string (Title t) +:+ enc_string (Description t) +:+
  enc_Z (DueDate t) +:+ enc_Z (Priority_ t) +:+ enc_bool (Completed t) +:+
  enc_Z (Progress t) +:+ enc_Z (CreatedAt t) +:+ enc_Z (UpdatedAt t).

Definition decode_task (data : string) : option Task :=
  '(id, r) ← dec_Z data;
  '(title, r) ← dec_string r;
  '(desc, r) ← dec_string r;
  '(due, r) ← dec_Z r;
  '(prio, r) ← dec_Z r;
  '(completed, r) ← dec_bool r;
  '(progress, r) ← dec_Z r;
  '(created, r) ← dec_Z r;
  '(updated, r) ← dec_Z r;
  match r with
  | EmptyString =>
      Some (mkTask id title desc due prio completed progress created updated)
  | _ => None
  end.

Definition decode_counter (data : string) : option Z :=
  '(n, r) ← dec_Z data;
  match r with EmptyString => Some n | _ => None end.

#[global] Instance codec : JSON := {|
  marshalTask t := Some (encode_task t);
  unmarshalTask := decode_task;
  marshalCounter n := Some (enc_Z n);
  unmarshalCounter := decode_counter
|}.

End TextJSON.

(* ===================================================================== *)
(** ** Notions the properties are stated with *)
(* ===================================================================== *)

Module Spec.
Import Models OS.

(** The name of the record of task [id], read as the store's listing
    reads it: [task_<s>.json] with [s] accepted by [strconv.ParseInt]. *)
Definition is_task_name (name : string) (id : Z) : Prop :=
  ∃ s, name = "task_" +:+ s +:+ ".json" ∧ Strconv.ParseInt s = Some id.

(** The same as a function of the name. *)
Definition task_name_id (name : string) : option Z :=
  if Strings.HasPrefix name "task_" && Strings.HasSuffix name ".json"
  then Strconv.ParseInt
         (Strings.TrimSuffix (Strings.TrimPrefix name "task_") ".json")
  else None.

(** Every id segment in the directory is written the way the store writes
    it ([%d]: no sign [+], no leading zeros). *)
Definition canonical_names (fs : FS) : Prop :=
  ∀ name data id,
    fs !! name = Some (File data) → is_task_name name id →
    name = Storage.getTaskFilename id.

(** Strictly increasing ids, in the order the tasks were created. *)
Definition ids_increase (tasks : list Task) : Prop :=
  ∀ i j a b,
    tasks !! i = Some a → tasks !! j = Some b → (i < j)%nat → ID a < ID b.

(** The fields of a task that its creator supplies. *)
Definition same_supplied_fields (a b : Task) : Prop :=
  Title a = Title b ∧ Description a = Description b ∧
  DueDate a = DueDate b ∧ Priority_ a = Priority_ b ∧
  Progress a = Progress b ∧ Completed a = Completed b.

(** The calls of the [storage.Storage] interface and of the service. *)
Inductive StoreCall :=
| SInit
| SClose
| SCreateTask (task : Task)
| SGetTask (id : Z)
| SGetAllTasks
| SUpdateTask (task : Task)
| SDeleteTask (id : Z)
| SCompleteTask (id : Z)
| SUpdateTaskProgress (id progress : Z).

Inductive AppCall :=
| AInitialize
| AClose
| ACreateTask (title desc : string) (dueDate : Time) (priority : Priority)
| AGetTask (id : Z)
| AGetAllTasks
| ADeleteTask (id : Z)
| ACompleteTask (id : Z)
| AUpdateTaskProgress (id progress : Z)
| AUpdateTaskDetails (id : Z) (title desc : string) (dueDate : Time)
    (priority : Priority).

Section WithJSON.
Context {J : JSON}.

(** Task [id] exists and is [t]: its record reads, decodes to [t], and
    [t] carries the id it is filed under. *)
Definition task_exists (fs : FS) (id : Z) (t : Task) : Prop :=
  Storage.GetTask id fs = Ok t ∧ ID t = id.

(** Every record that reads is filed under its own id. *)
Definition consistent (fs : FS) : Prop :=
  ∀ id t, Storage.GetTask id fs = Ok t → ID t = id.

(** [CreateTask] called once per element of [calls], in order, each with
    the time it was made at; the task and the error of every call. *)
Fixpoint create_all (calls : list (Time * Task)) (s : Storage.FileStorage)
    (fs : FS) : Storage.FileStorage * FS * list (Task * option error) :=
  match calls with
  | [] => (s, fs, [])
  | (now, task) :: calls =>
      let '(s, fs, task, err) := Storage.CreateTask now task s fs in
      let '(s, fs, out) := create_all calls s fs in
      (s, fs, (task, err) :: out)
  end.

(** What the listing is said to return: the decoded record of every file
    whose name is a task name, for those that decode. *)
Definition named_record (entry : string * Node) : option Task :=
  match entry.2 with
  | Dir _ => None
  | File data =>
      match task_name_id entry.1 with
      | None => None
      | Some _ => unmarshalTask data
      end
  end.

(** What the listing finds for an entry: the record filed under the id
    its name parses to. *)
Definition listed_record (fs : FS) (entry : string * Node) : option Task :=
  match entry.2 with
  | Dir _ => None
  | File _ =>
      match task_name_id entry.1 with
      | None => None
      | Some id =>
          match Storage.GetTask id fs with
          | Ok task => Some task
          | Err _ => None
          end
      end
  end.

(** The state a call leaves, its results dropped. *)
Definition run_store (now : Time) (c : StoreCall) (s : Storage.FileStorage)
    (fs : FS) : Storage.FileStorage * FS :=
  match c with
  | SInit => (Storage.Init s fs).1
  | SClose | SGetTask _ | SGetAllTasks => (s, fs)
  | SCreateTask task => (Storage.CreateTask now task s fs).1.1
  | SUpdateTask task => (s, (Storage.UpdateTask now task fs).1.1)
  | SDeleteTask id => (s, (Storage.DeleteTask id fs).1)
  | SCompleteTask id => (s, (Storage.CompleteTask now id fs).1)
  | SUpdateTaskProgress id p => (s, (Storage.UpdateTaskProgress now id p fs).1)
  end.

Definition run_app (now : Time) (c : AppCall) (s : Storage.FileStorage)
    (fs : FS) : Storage.FileStorage * FS :=
  match c with
  | AInitialize => (App.Initialize s fs).1
  | AClose | AGetTask _ | AGetAllTasks => (s, fs)
  | ACreateTask title desc due prio =>
      (App.CreateTask now title desc due prio s fs).1
  | ADeleteTask id => (s, (App.DeleteTask id fs).1)
  | ACompleteTask id => (s, (App.CompleteTask now id fs).1)
  | AUpdateTaskProgress id p => (s, (App.UpdateTaskProgress now id p fs).1)
  | AUpdateTaskDetails id title desc due prio =>
      (s, (App.UpdateTaskDetails now id title desc due prio fs).1)
  end.

(** Service calls in sequence, each at its own time. *)
Fixpoint run_app_all (calls : list (Time * AppCall))
    (s : Storage.FileStorage) (fs : FS) : Storage.FileStorage * FS :=
  match calls with
  | [] => (s, fs)
  | (now, c) :: calls =>
      let '(s, fs) := run_app now c s fs in run_app_all calls s fs
  end.

(** A step leaves task [id] completed if it was, as long as the task is
    still there. *)
Definition keeps_completed
    (step : Storage.FileStorage → FS → Storage.FileStorage * FS)
    (s : Storage.FileStorage) (fs : FS) (id : Z) : Prop :=
  ∀ t t',
    Storage.GetTask id fs = Ok t → Completed t = true →
    Storage.GetTask id (step s fs).2 = Ok t' → Completed t' = true.

(** The persisted counter, when there is one, is at most the counter in
    memory and above the id of every record that reads; with no counter
    file there is no such record. *)
Definition counter_ahead (s : Storage.FileStorage) (fs : FS) : Prop :=
  (fs !! Storage.counterFile = None ∧
   ∀ id t, Storage.GetTask id fs ≠ Ok t) ∨
  (∃ data c,
     fs !! Storage.counterFile = Some (File data) ∧
     unmarshalCounter data = Some c ∧
     0 ≤ c ≤ Storage.nextID s ∧
     ∀ id t, Storage.GetTask id fs = Ok t → id < c).

(** What the service maintains of a store, with a bound on the counter. *)
Definition well_kept (bound : Z) (s : Storage.FileStorage) (fs : FS)
  : Prop :=
  consistent fs ∧ counter_ahead s fs ∧ 0 ≤ Storage.nextID s ≤ bound.

(** *** The three statements of the specification that the code does not
    meet as they are worded, written down as worded. *)

(** Creation: over a sequence of successful [CreateTask] calls on one
    store, ids strictly increase and [created_at] equals [updated_at]. *)
Definition creation_as_stated (calls : list (Time * Task))
    (s : Storage.FileStorage) (fs : FS) : Prop :=
  let out := (create_all calls s fs).2 in
  Forall (λ r, r.2 = None) out →
  ids_increase out.*1 ∧ Forall (λ r, CreatedAt r.1 = UpdatedAt r.1) out.

(** Listing: for every directory, [GetAllTasks] returns exactly the
    records of the task-named files that decode, by ascending id. *)
Definition listing_as_stated (fs : FS) : Prop :=
  ∃ l, Storage.GetAllTasks fs = Ok l ∧ Sorted Storage.id_le l ∧
       l ≡ₚ omap named_record (map_to_list fs).

(** Completion: no store call and no service call clears the flag. *)
Definition completion_as_stated (now : Time) (s : Storage.FileStorage)
    (fs : FS) (id : Z) : Prop :=
  (∀ c : StoreCall, keeps_completed (run_store now c) s fs id) ∧
  (∀ c : AppCall, keeps_completed (run_app now c) s fs id).

End WithJSON.
End Spec.

(* ===================================================================== *)
(** ** Concrete stores *)
(* ===================================================================== *)

(** Directories and records to run the store on, with the concrete
    codec. *)
Module Example.
Import Models OS.

Definition record (id : Z) (title : string) (completed : bool)
    (progress : Z) : Task :=
  mkTask id title "" 0 Medium completed progress 5 5.

Definition file_of (t : Task) : Node := File (TextJSON.encode_task t).

Definition report : Task := mkTask 0 "Write report" "" 2030 High false 0 0 0.

(** One open task, filed under its id, and the counter after it. *)
Definition one_task : FS :=
  {[ "counter.json" := File (TextJSON.enc_Z 2);
     "task_1.json" := file_of (record 1 "a" false 40) ]}.

(** One completed task. *)
Definition one_done : FS :=
  {[ "counter.json" := File (TextJSON.enc_Z 2);
     "task_1.json" := file_of (record 1 "a" true 100) ]}.

(** Tasks 3, 1 and 2, the counter file, notes of the user's, a record
    that does not decode and a sub-directory. *)
Definition three_tasks : FS :=
  {[ "task_3.json" := file_of (record 3 "c" false 0);
     "task_1.json" := file_of (record 1 "a" false 0);
     "task_2.json" := file_of (record 2 "b" true 100);
     "counter.json" := File (TextJSON.enc_Z 4);
     "notes.txt" := File "task_9";
     "task_4.json" := File "{";
     "task_5.json" := Dir true ]}.

(** A record whose id segment is written with a leading zero. *)
Definition leading_zero : FS :=
  {[ "task_07.json" := file_of (record 7 "g" false 0) ]}.

(** A directory sits where the record of the next task would go. *)
Definition blocked : FS :=
  {[ "counter.json" := File (TextJSON.enc_Z 1); "task_1.json" := Dir true ]}.

(** The completed task 1 after the counter file was removed. *)
Definition counter_removed : FS :=
  {[ "task_1.json" := file_of (record 1 "a" true 100) ]}.

(** The completed task 1, and under the name of task 2 a record that
    carries id 1. *)
Definition misfiled : FS :=
  {[ "counter.json" := File (TextJSON.enc_Z 3);
     "task_1.json" := file_of (record 1 "a" true 100);
     "task_2.json" := file_of (record 1 "x" false 10) ]}.

(** A store whose counter is the largest [int64]. *)
Definition at_max : Storage.FileStorage :=
  Storage.mkFileStorage Int64.MaxInt64.

End Example.

(* ===================================================================== *)
(** ** [models.Task]: the status of a task *)
(* ===================================================================== *)

Module TaskGo.
Import Models.

(** [t.IsZero()]. *)
Definition IsZero (t : Time) : bool := bool_decide (t = 0).

(** [t.After(u)]. *)
Definition After (t u : Time) : bool := bool_decide (u < t).

(** [(Task).Status], at the time [now] its [time.Now()] returns. *)
Definition Status (now : Time) (t : Task) : string :=
  if Completed t then "Completed"
  else if IsZero (DueDate t)
  then "In Progress (" +:+ Strconv.FormatInt (Progress t) +:+ "%)"
  else if After now (DueDate t) then "Overdue"
  else "In Progress (" +:+ Strconv.FormatInt (Progress t) +:+ "%)".

End TaskGo.

(* ===================================================================== *)
(** ** The command line *)
(* ===================================================================== *)

Module CliGo.
Import Models OS.

(** The errors the commands build themselves or wrap. *)
Inductive cli_error :=
| CliTaskIDRequired                 (* task ID is required *)
| CliIDAndProgressRequired          (* task ID and progress value are required *)
| CliInvalidTaskID                  (* invalid task ID: %w *)
| CliInvalidProgress                (* invalid progress value: %w *)
| CliProgressRange                  (* progress must be between 0 and 100 *)
| CliGetTask (cause : error)        (* failed to get task: %w *)
| CliUpdateProgress (cause : error) (* failed to update task progress: %w *)
| CliCompleteTask (cause : error)   (* failed to complete task: %w *)
| CliDeleteTask (cause : error).    (* failed to delete task: %w *)

(** The line feed that ends a printed line. *)
Definition nl : string := String "010" EmptyString.

(** [strconv.Atoi]: [ParseInt(s, 10, 0)] with [int] of 64 bits. *)
Definition Atoi (s : string) : option Z := Strconv.ParseInt s.

(** [truncateString].  The slice [s[:maxLen-3]] panics when its bound is
    negative, which is [None] here; past the first test the bound is
    below [len(s)]. *)
Definition truncateString (s : string) (maxLen : Z) : option string :=
  if decide (Z.of_nat (String.length s) ≤ maxLen) then Some s
  else if decide (maxLen - 3 < 0) then None
  else Some (String.substring 0 (Z.to_nat (maxLen - 3)) s +:+ "...").

Section WithJSON.
Context {J : JSON}.

(** [strings.ToLower], whatever it does to its argument. *)
Variable ToLower : string → string.

(** [updateProgress]: the directory it leaves, what it prints and the
    error it returns. *)
Definition updateProgress (now : Time) (args : list string) (fs : FS)
  : FS * list string * option cli_error :=
  match args with
  | idArg :: progressArg :: _ =>
      match Strconv.ParseInt idArg with
      | None => (fs, [], Some CliInvalidTaskID)
      | Some id =>
          match Atoi progressArg with
          | None => (fs, [], Some CliInvalidProgress)
          | Some progress =>
              if decide (progress < 0 ∨ progress > 100)
              then (fs, [], Some CliProgressRange)
              else
                match App.UpdateTaskProgress now id progress fs with
                | (fs, Some err) => (fs, [], Some (CliUpdateProgress err))
                | (fs, None) =>
                    (fs,
                     ["Progress for task " +:+ Strconv.FormatInt id +:+
                      " updated to " +:+ Strconv.FormatInt progress +:+
                      "%" +:+ nl],
                     None)
                end
          end
      end
  | _ => (fs, [], Some CliIDAndProgressRequired)
  end.

(** [completeTask]. *)
Definition completeTask (now : Time) (args : list string) (fs : FS)
  : FS * list string * option cli_error :=
  match args with
  | [] => (fs, [], Some CliTaskIDRequired)
  | idArg :: _ =>
      match Strconv.ParseInt idArg with
      | None => (fs, [], Some CliInvalidTaskID)
      | Some id =>
          match App.CompleteTask now id fs with
          | (fs, Some err) => (fs, [], Some (CliCompleteTask err))
          | (fs, None) =>
              (fs,
               ["Task " +:+ Strconv.FormatInt id +:+
                " marked as complete" +:+ nl],
               None)
          end
      end
  end.

(** [deleteTask]; [confirm] is what [fmt.Scanln] read from the terminal
    (empty when it read nothing). *)
Definition deleteTask (confirm : string) (args : list string) (fs : FS)
  : FS * list string * option cli_error :=
  match args with
  | [] => (fs, [], Some CliTaskIDRequired)
  | idArg :: _ =>
      match Strconv.ParseInt idArg with
      | None => (fs, [], Some CliInvalidTaskID)
      | Some id =>
          match App.GetTask id fs with
          | Err err => (fs, [], Some (CliGetTask err))
          | Ok task =>
              let prompt :=
                "Are you sure you want to delete task '" +:+ Title task +:+
                "'? (y/n): " in
              if negb (String.eqb (ToLower confirm) "y")
                 && negb (String.eqb (ToLower confirm) "yes")
              then (fs, [prompt; "Deletion cancelled" +:+ nl], None)
              else
                match App.DeleteTask id fs with
                | (fs, Some err) => (fs, [prompt], Some (CliDeleteTask err))
                | (fs, None) =>
                    (fs,
                     [prompt;
                      "Task " +:+ Strconv.FormatInt id +:+
                      " deleted successfully" +:+ nl],
                     None)
                end
          end
      end
  end.

End WithJSON.
End CliGo.

(* ===================================================================== *)
(** ** One run of the program after another *)
(* ===================================================================== *)

Module MainGo.
Import Models OS Spec.

(** [storage.NewFileStorage(targetDir)] for the directory [main] passes:
    the tasks directory is made, the counter of the new value is zero. *)
Definition NewFileStorage (fs : FS) : FS * result Storage.FileStorage :=
  match MkdirAll fs with
  | (fs, Some e) => (fs, Err (ErrMkdirTasksDir e))
  | (fs, None) => (fs, Ok (Storage.mkFileStorage 0))
  end.

Section WithJSON.
Context {J : JSON}.

(** The id of the task a service call has created, if it has. *)
Definition created_id (now : Time) (c : AppCall) (s : Storage.FileStorage)
    (fs : FS) : option Z :=
  match c with
  | ACreateTask title desc due prio =>
      match (App.CreateTask now title desc due prio s fs).2 with
      | Ok task => Some (ID task)
      | Err _ => None
      end
  | _ => None
  end.

(** The ids of the tasks created by service calls in sequence. *)
Fixpoint run_app_created (calls : list (Time * AppCall))
    (s : Storage.FileStorage) (fs : FS) : list Z :=
  match calls with
  | [] => []
  | (now, c) :: calls =>
      option_list (created_id now c s fs) ++
      run_app_created calls (run_app now c s fs).1 (run_app now c s fs).2
  end.

(** [main]: a new [FileStorage], [Init], then the command, which reaches
    the store through the service calls [calls] and nothing else; the
    program exits when either of the first two fails.  The directory left
    and the ids of the tasks created. *)
Definition invocation (calls : list (Time * AppCall)) (fs : FS)
  : FS * list Z :=
  match NewFileStorage fs with
  | (fs, Err _) => (fs, [])
  | (fs, Ok store) =>
      match Storage.Init store fs with
      | (_, fs, Some _) => (fs, [])
      | (store, fs, None) =>
          ((run_app_all calls store fs).2, run_app_created calls store fs)
      end
  end.

(** Runs of the program one after another on the same directory. *)
Fixpoint invocations (runs : list (list (Time * AppCall))) (fs : FS)
  : FS * list Z :=
  match runs with
  | [] => (fs, [])
  | calls :: runs =>
      let '(fs, ids) := invocation calls fs in
      let '(fs, ids') := invocations runs fs in
      (fs, ids ++ ids')
  end.

(** The counter file, when there is one, decodes to a counter within
    [0, bound] that is above every id of [ids]; with no counter file no
    id was given out. *)
Definition counter_above (ids : list Z) (bound : Z) (fs : FS) : Prop :=
  0 ≤ bound ∧
  ((fs !! Storage.counterFile = None ∧ ids = []) ∨
   (∃ data c,
      fs !! Storage.counterFile = Some (File data) ∧
      unmarshalCounter data = Some c ∧
      0 ≤ c ≤ bound ∧ Forall (λ i, i < c) ids)).

(** The same of a store in use: the counter in memory has not fallen
    behind the counter file. *)
Definition store_above (ids : list Z) (bound : Z) (s : Storage.FileStorage)
    (fs : FS) : Prop :=
  0 ≤ Storage.nextID s ≤ bound ∧
  ((fs !! Storage.counterFile = None ∧ ids = []) ∨
   (∃ data c,
      fs !! Storage.counterFile = Some (File data) ∧
      unmarshalCounter data = Some c ∧
      0 ≤ c ≤ Storage.nextID s ∧ Forall (λ i, i < c) ids)).

(** How many service calls and starts [runs] makes. *)
Definition steps (runs : list (list (Time * AppCall))) : Z :=
  Z.of_nat (length runs) + Z.of_nat (length (concat runs)).

End WithJSON.
End MainGo.

(** Properties of all the records that read. *)
Module Records.
Import Models OS.

Section WithJSON.
Context {J : JSON}.

(** Every record that reads satisfies [P]. *)
Definition all_tasks (P : Task → Prop) (fs : FS) : Prop :=
  ∀ id t, Storage.GetTask id fs = Ok t → P t.

(** Progress is a percentage, and a task at 100 is completed. *)
Definition progress_ok (t : Task) : Prop :=
  0 ≤ Progress t ≤ 100 ∧ (Progress t = 100 → Completed t = true).

End WithJSON.
End Records.

(* ===================================================================== *)
(** * Properties *)
(* ===================================================================== *)

(** ** Strings *)

Section StringFacts.

Lemma string_app_cons (c : ascii) (a b : string) :
  String c a +:+ b = String c (a +:+ b).
Proof. reflexivity. Qed.

Lemma string_app_nil_l (a : string) : "" +:+ a = a.
Proof. reflexivity. Qed.

Lemma string_app_nil_r (a : string) : a +:+ "" = a.
Proof. induction a as [|c a IH]; [done|]. by rewrite string_app_cons, IH. Qed.

Lemma string_app_assoc (a b c : string) : (a +:+ b) +:+ c = a +:+ b +:+ c.
Proof.
  induction a as [|x a IH]; [done|]. by rewrite !string_app_cons, IH.
Qed.

Lemma string_length_app (a b : string) :
  String.length (a +:+ b) = (String.length a + String.length b)%nat.
Proof.
  induction a as [|x a IH]; [done|].
  rewrite string_app_cons. simpl. by rewrite IH.
Qed.

Lemma prefix_app (p s : string) : String.prefix p (p +:+ s) = true.
Proof.
  induction p as [|c p IH]; [by destruct s|].
  rewrite string_app_cons. simpl. by destruct (ascii_dec c c).
Qed.

Lemma prefix_inv (p s : string) :
  String.prefix p s = true → ∃ r, s = p +:+ r.
Proof.
  revert s. induction p as [|c p IH]; intros s H.
  - by exists s.
  - destruct s as [|d s]; [done|]. simpl in H.
    destruct (ascii_dec c d) as [->|]; [|done].
    destruct (IH _ H) as [r ->]. by exists r.
Qed.

Lemma substring_drop (a b : string) :
  String.substring (String.length a) (String.length b) (a +:+ b) = b.
Proof.
  induction a as [|c a IH]; simpl.
  - rewrite string_app_nil_l.
    induction b as [|d b IHb]; [done|]. simpl. by rewrite IHb.
  - done.
Qed.

Lemma substring_take (a b : string) :
  String.substring 0 (String.length a) (a +:+ b) = a.
Proof.
  induction a as [|c a IH]; simpl.
  - by destruct (_ +:+ _).
  - by rewrite IH.
Qed.


Lemma HasPrefix_app (p s : string) : Strings.HasPrefix (p +:+ s) p = true.
Proof. apply prefix_app. Qed.

Lemma TrimPrefix_app (p s : string) : Strings.TrimPrefix (p +:+ s) p = s.
Proof.
  unfold Strings.TrimPrefix. rewrite HasPrefix_app, string_length_app.
  replace (String.length p + String.length s - String.length p)%nat
    with (String.length s) by lia.
  apply substring_drop.
Qed.

Lemma HasSuffix_app (s x : string) : Strings.HasSuffix (s +:+ x) x = true.
Proof.
  unfold Strings.HasSuffix. rewrite string_length_app.
  replace (String.length s + String.length x - String.length x)%nat
    with (String.length s) by lia.
  rewrite substring_drop, String.eqb_refl, andb_true_r.
  apply Nat.leb_le. lia.
Qed.

Lemma TrimSuffix_app (s x : string) : Strings.TrimSuffix (s +:+ x) x = s.
Proof.
  unfold Strings.TrimSuffix. rewrite HasSuffix_app, string_length_app.
  replace (String.length s + String.length x - String.length x)%nat
    with (String.length s) by lia.
  apply substring_take.
Qed.

Lemma substring_split (n : nat) (s : string) :
  (n ≤ String.length s)%nat →
  s = String.substring 0 n s +:+ String.substring n (String.length s - n) s.
Proof.
  revert s. induction n as [|n IH]; intros s Hn.
  - replace (String.substring 0 0 s) with "" by (by destruct s).
    rewrite string_app_nil_l, Nat.sub_0_r.
    clear Hn. induction s as [|c s IHs]; [done|]. simpl. by rewrite <- IHs.
  - destruct s as [|c s]; simpl in *; [lia|].
    rewrite string_app_cons. f_equal. apply IH. lia.
Qed.

Lemma HasSuffix_inv (s x : string) :
  Strings.HasSuffix s x = true → ∃ r, s = r +:+ x.
Proof.
  unfold Strings.HasSuffix. intros [Hlen Heq]%andb_true_iff.
  apply Nat.leb_le in Hlen. apply String.eqb_eq in Heq.
  exists (String.substring 0 (String.length s - String.length x) s).
  rewrite (substring_split (String.length s - String.length x) s) at 1 by lia.
  f_equal. rewrite <- Heq at 3. f_equal. lia.
Qed.

End StringFacts.

(** ** Decimal numbers *)

Section StrconvFacts.
Import Strconv.

Lemma digit_of_pretty_N_char (d : N) :
  (d < 10)%N → digit_of (pretty_N_char d) = Some d.
Proof.
  intros Hd.
  assert (d = 0 ∨ d = 1 ∨ d = 2 ∨ d = 3 ∨ d = 4 ∨ d = 5 ∨ d = 6 ∨ d = 7
          ∨ d = 8 ∨ d = 9)%N as Hcases by lia.
  repeat (destruct Hcases as [->|Hcases]; [reflexivity|]). by subst.
Qed.

(** Scanning the digits [pretty_N_go] laid before [s] accumulates the
    number they denote and goes on with [s]. *)
Lemma scan_digits_pretty_N_go (x : N) :
  ∃ k : N, ∀ acc s,
    scan_digits acc (pretty_N_go x s) = scan_digits (acc * 10 ^ k + x) s.
Proof.
  induction (N.lt_wf_0 x) as [x _ IH].
  destruct (decide (x = 0)%N) as [->|Hx].
  - exists 0%N. intros acc s. rewrite pretty_N_go_0. f_equal. lia.
  - assert (0 < x)%N as Hpos by lia.
    destruct (IH (x `div` 10)%N) as [k Hk]; [by apply N.div_lt|].
    exists (k + 1)%N. intros acc s.
    rewrite pretty_N_go_step, Hk by done. simpl.
    rewrite digit_of_pretty_N_char by (by apply N.mod_lt).
    f_equal. rewrite N.pow_add_r, N.pow_1_r.
    pose proof (N.div_mod x 10 ltac:(done)) as Hdm. clear Hk IH.
    set (q := (x `div` 10)%N) in *. set (r := (x `mod` 10)%N) in *.
    set (m := (10 ^ k)%N). clearbody q r m. rewrite Hdm. ring.
Qed.

Lemma pretty_N_go_app (x : N) (s r : string) :
  pretty_N_go x s +:+ r = pretty_N_go x (s +:+ r).
Proof.
  revert s. induction (N.lt_wf_0 x) as [x _ IH]; intros s.
  destruct (decide (x = 0)%N) as [->|Hx]; [by rewrite !pretty_N_go_0|].
  rewrite (pretty_N_go_step x s), (pretty_N_go_step x (s +:+ r)) by lia.
  by rewrite IH by (apply N.div_lt; lia).
Qed.

(** A positive number is printed with a digit in front. *)
Lemma pretty_N_go_head (x : N) (s : string) :
  (0 < x)%N →
  ∃ c r, pretty_N_go x s = String c r ∧ is_Some (digit_of c).
Proof.
  revert s. induction (N.lt_wf_0 x) as [x _ IH]; intros s Hx.
  rewrite pretty_N_go_step by done.
  destruct (decide (x `div` 10 = 0)%N) as [->|Hq].
  - rewrite pretty_N_go_0. eexists _, _. split; [done|].
    rewrite digit_of_pretty_N_char; [done|by apply N.mod_lt].
  - apply IH; [apply N.div_lt; lia|]. by apply N.neq_0_lt_0.
Qed.

Lemma pretty_N_head (x : N) :
  ∃ c r, pretty x = String c r ∧ is_Some (digit_of c).
Proof.
  unfold pretty, pretty_N. case_decide as Hx.
  - by eexists _, _.
  - apply pretty_N_go_head. lia.
Qed.

Lemma scan_digits_pretty_N (x : N) (s : string) :
  scan_digits 0 (pretty x +:+ s) = scan_digits x s.
Proof.
  unfold pretty, pretty_N. case_decide as Hx.
  - by subst.
  - destruct (scan_digits_pretty_N_go x) as [k Hk].
    rewrite pretty_N_go_app, Hk. done.
Qed.

Lemma ParseUint_pretty_N (x : N) : ParseUint (pretty x) = Some x.
Proof.
  destruct (pretty_N_head x) as (c & r & Heq & _).
  unfold ParseUint. rewrite Heq, <- Heq.
  destruct (scan_digits 0 (pretty x)) as [un rest] eqn:Hscan.
  rewrite <- (string_app_nil_r (pretty x)), scan_digits_pretty_N in Hscan.
  simpl in Hscan. by simplify_eq.
Qed.

Lemma digit_not_sign (c : ascii) :
  is_Some (digit_of c) → Ascii.eqb c "+" = false ∧ Ascii.eqb c "-" = false.
Proof.
  intros [d Hd]. split; apply Ascii.eqb_neq; intros ->; discriminate.
Qed.

(** [ParseInt] reads back what [%d] prints, for every [int64]. *)
Lemma ParseInt_FormatInt (z : Z) :
  Int64.in_range z → ParseInt (FormatInt z) = Some z.
Proof.
  unfold Int64.in_range, Int64.MinInt64, Int64.MaxInt64, FormatInt.
  intros Hz. destruct z as [|p|p].
  - reflexivity.
  - change (pretty (Z.pos p)) with (pretty (N.pos p)).
    pose proof (ParseUint_pretty_N (N.pos p)) as HU.
    destruct (pretty_N_head (N.pos p)) as (c & r & Heq & Hc).
    destruct (digit_not_sign c Hc) as [Hplus Hminus].
    rewrite Heq in *. unfold ParseInt. rewrite Hplus, Hminus. simpl orb.
    cbv iota. rewrite HU. simpl negb. simpl andb.
    destruct (N.leb_spec (2 ^ 63)%N (N.pos p)) as [Hle|_]; [lia|done].
  - change (pretty (Z.neg p)) with ("-" +:+ pretty (N.pos p)).
    rewrite string_app_cons, string_app_nil_l. unfold ParseInt.
    change (Ascii.eqb "-" "+") with false. change (Ascii.eqb "-" "-") with true.
    simpl orb. cbv iota. rewrite ParseUint_pretty_N. simpl negb. simpl andb.
    destruct (N.ltb_spec (2 ^ 63)%N (N.pos p)) as [Hlt|_]; [lia|done].
Qed.

End StrconvFacts.

(** ** Entry names *)

Section NameFacts.
Import Storage Spec.

Lemma app_inj_r (a b c : string) : a +:+ c = b +:+ c → a = b.
Proof.
  intros H.
  assert (String.length a = String.length b) as Hlen.
  { apply (f_equal String.length) in H. rewrite !string_length_app in H. lia. }
  rewrite <- (substring_take a c), H, Hlen. apply substring_take.
Qed.

Lemma getTaskFilename_inj (a b : Z) :
  getTaskFilename a = getTaskFilename b → a = b.
Proof.
  unfold getTaskFilename, Strconv.FormatInt. intros H.
  apply (inj (String.app "task_")) in H. apply app_inj_r in H.
  by apply (inj pretty).
Qed.

Lemma getTaskFilename_ne_counter (id : Z) : getTaskFilename id ≠ counterFile.
Proof.
  unfold getTaskFilename, counterFile. rewrite string_app_cons. discriminate.
Qed.

Lemma task_name_id_spec (name : string) (id : Z) :
  task_name_id name = Some id ↔ is_task_name name id.
Proof.
  unfold task_name_id, is_task_name. split.
  - destruct (Strings.HasPrefix name "task_") eqn:Hp; [|done].
    destruct (Strings.HasSuffix name ".json") eqn:Hs; [|done]. simpl.
    apply prefix_inv in Hp as [r ->].
    apply HasSuffix_inv in Hs as [q Hq].
    assert (∃ s, r = s +:+ ".json") as [s ->].
    { destruct q as [|c1 [|c2 [|c3 [|c4 [|c5 q]]]]];
        rewrite ?string_app_cons, ?string_app_nil_l in Hq; simplify_eq.
      by exists q. }
    rewrite TrimPrefix_app, TrimSuffix_app. eauto.
  - intros (s & -> & Hs).
    rewrite HasPrefix_app, TrimPrefix_app, TrimSuffix_app.
    rewrite <- string_app_assoc, HasSuffix_app. done.
Qed.

Lemma is_task_name_getTaskFilename (id : Z) :
  Int64.in_range id → is_task_name (getTaskFilename id) id.
Proof.
  intros Hid. exists (Strconv.FormatInt id). split; [done|].
  by apply ParseInt_FormatInt.
Qed.

End NameFacts.

(** ** Reading and writing entries *)

Section OSFacts.
Import OS.

Lemma ReadFile_WriteFile_eq (name data : string) (fs fs' : FS) :
  WriteFile name data fs = (fs', None) → ReadFile name fs' = inr data.
Proof.
  unfold WriteFile, ReadFile. intros H.
  repeat case_match; simplify_eq; by rewrite lookup_insert_eq in *; simplify_eq.
Qed.

Lemma WriteFile_inv (name data : string) (fs fs' : FS) (err : option Errno) :
  WriteFile name data fs = (fs', err) →
  (err = None ∧ fs' = <[name := File data]> fs ∧
     ∀ e, fs !! name ≠ Some (Dir e)) ∨
  (err = Some EISDIR ∧ fs' = fs ∧ ∃ e, fs !! name = Some (Dir e)).
Proof.
  unfold WriteFile. intros H. repeat case_match; simplify_eq; eauto.
Qed.

Lemma WriteFile_ok (name data : string) (fs : FS) :
  (∀ e, fs !! name ≠ Some (Dir e)) →
  WriteFile name data fs = (<[name := File data]> fs, None).
Proof.
  unfold WriteFile. intros H. repeat case_match; simplify_eq; try done.
  by destruct (H empty).
Qed.

End OSFacts.

(** ** Saving and loading a record *)

Section StoreFacts.
Import Models OS Storage Spec.
Context {J : JSON}.

Lemma GetTask_lookup (id : Z) (fs : FS) (t : Task) :
  GetTask id fs = Ok t ↔
  ∃ data, fs !! getTaskFilename id = Some (File data) ∧
          unmarshalTask data = Some t.
Proof.
  unfold GetTask, ReadFile. split.
  - intros H. repeat case_match; simplify_eq. eauto.
  - intros (data & -> & ->). done.
Qed.

Lemma GetTask_not_found (id : Z) (fs : FS) :
  fs !! getTaskFilename id = None → GetTask id fs = Err (ErrTaskNotFound id).
Proof. unfold GetTask, ReadFile. by intros ->. Qed.

Lemma GetTask_not_found_inv (id : Z) (fs : FS) (e : error) :
  GetTask id fs = Err e → is_not_found e = true →
  fs !! getTaskFilename id = None.
Proof.
  unfold GetTask, ReadFile. intros H He.
  repeat case_match; simplify_eq; done.
Qed.

(** [GetTask] depends on the entry of its id alone. *)
Lemma GetTask_ext (id : Z) (fs fs' : FS) :
  fs' !! getTaskFilename id = fs !! getTaskFilename id →
  GetTask id fs' = GetTask id fs.
Proof. unfold GetTask, ReadFile. by intros ->. Qed.

Lemma saveTask_inv (task : Task) (fs fs' : FS) (err : option error) :
  saveTask task fs = (fs', err) →
  (err = None ∧
   ∃ data, marshalTask task = Some data ∧
           fs' = <[getTaskFilename (ID task) := File data]> fs) ∨
  (is_Some err ∧ fs' = fs).
Proof.
  unfold saveTask. intros H.
  destruct (marshalTask task) as [data|]; [|simplify_eq; eauto].
  destruct (WriteFile _ data fs) as [fs1 [e|]] eqn:HW; simplify_eq.
  - apply WriteFile_inv in HW as [(?&?&?)|(?&?&?)]; simplify_eq. eauto.
  - apply WriteFile_inv in HW as [(?&?&?)|(?&?&?)]; simplify_eq. eauto.
Qed.

Lemma saveTask_ok (task : Task) (fs : FS) :
  task_marshal_total J →
  (∀ e, fs !! getTaskFilename (ID task) ≠ Some (Dir e)) →
  ∃ data, marshalTask task = Some data ∧
          saveTask task fs =
            (<[getTaskFilename (ID task) := File data]> fs, None).
Proof.
  intros Htot Hnd. destruct (Htot task) as [data Hdata].
  exists data. split; [done|].
  unfold saveTask. by rewrite Hdata, WriteFile_ok.
Qed.

Lemma saveCounter_inv (s : FileStorage) (fs fs' : FS) (err : option error) :
  saveCounter s fs = (fs', err) →
  (err = None ∧
   ∃ data, marshalCounter (nextID s) = Some data ∧
           fs' = <[counterFile := File data]> fs) ∨
  (is_Some err ∧ fs' = fs).
Proof.
  unfold saveCounter. intros H.
  destruct (marshalCounter _) as [data|]; [|simplify_eq; eauto].
  destruct (WriteFile _ data fs) as [fs1 [e|]] eqn:HW; simplify_eq.
  - apply WriteFile_inv in HW as [(?&?&?)|(?&?&?)]; simplify_eq. eauto.
  - apply WriteFile_inv in HW as [(?&?&?)|(?&?&?)]; simplify_eq. eauto.
Qed.

Lemma saveCounter_ok (s : FileStorage) (fs : FS) :
  counter_marshal_total J →
  (∀ e, fs !! counterFile ≠ Some (Dir e)) →
  ∃ data, marshalCounter (nextID s) = Some data ∧
          saveCounter s fs = (<[counterFile := File data]> fs, None).
Proof.
  intros Htot Hnd. destruct (Htot (nextID s)) as [data Hdata].
  exists data. split; [done|].
  unfold saveCounter. by rewrite Hdata, WriteFile_ok.
Qed.

(** The record just saved is the one [GetTask] returns. *)
Lemma GetTask_saveTask (task : Task) (fs fs' : FS) :
  task_round_trip J →
  saveTask task fs = (fs', None) → GetTask (ID task) fs' = Ok task.
Proof.
  intros Hrt [(_ & data & Hm & ->)|([? [=]] & _)]%saveTask_inv.
  apply GetTask_lookup. exists data. rewrite lookup_insert_eq. eauto.
Qed.

(** Saving a record leaves every other id as it was. *)
Lemma GetTask_saveTask_ne (id : Z) (task : Task) (fs : FS) :
  id ≠ ID task → GetTask id (saveTask task fs).1 = GetTask id fs.
Proof.
  intros Hne. destruct (saveTask task fs) as [fs' err] eqn:Hs.
  apply saveTask_inv in Hs as [(_ & data & _ & ->)|(_ & ->)]; [|done].
  apply GetTask_ext. simpl. rewrite lookup_insert_ne; [done|].
  intros Heq%getTaskFilename_inj. congruence.
Qed.

Lemma GetTask_saveCounter (id : Z) (s : FileStorage) (fs : FS) :
  GetTask id (saveCounter s fs).1 = GetTask id fs.
Proof.
  destruct (saveCounter s fs) as [fs' err] eqn:Hs.
  apply saveCounter_inv in Hs as [(_ & data & _ & ->)|(_ & ->)]; [|done].
  apply GetTask_ext. simpl. rewrite lookup_insert_ne; [done|].
  intros Heq. by eapply getTaskFilename_ne_counter.
Qed.

Lemma GetTask_is_file (id : Z) (fs : FS) (t : Task) :
  GetTask id fs = Ok t → ∀ e, fs !! getTaskFilename id ≠ Some (Dir e).
Proof. intros (data & Hl & _)%GetTask_lookup e. congruence. Qed.

End StoreFacts.

(** ** The concrete codec meets the codec hypotheses *)

Section TextJSONFacts.
Import Models TextJSON.

Lemma dec_N_until_pretty (stop : ascii) (n : N) (rest : string) :
  Strconv.digit_of stop = None →
  dec_N_until stop (pretty n +:+ String stop rest) = Some (n, rest).
Proof.
  intros Hstop. unfold dec_N_until.
  rewrite scan_digits_pretty_N.
  destruct (pretty_N_head n) as (c & r & -> & [d Hd]).
  rewrite string_app_cons, Hd. simpl. rewrite Hstop.
  by rewrite Ascii.eqb_refl.
Qed.

Lemma dec_Z_enc_Z (z : Z) (rest : string) :
  dec_Z (enc_Z z +:+ rest) = Some (z, rest).
Proof.
  unfold enc_Z. rewrite string_app_assoc, string_app_cons, string_app_nil_l.
  destruct z as [|p|p].
  - reflexivity.
  - change (pretty (Z.pos p)) with (pretty (N.pos p)).
    pose proof (dec_N_until_pretty ";" (N.pos p) rest eq_refl) as HD.
    destruct (pretty_N_head (N.pos p)) as (c & r & Heq & Hc).
    destruct (digit_not_sign c Hc) as [_ Hminus].
    rewrite Heq in *. rewrite string_app_cons in *.
    unfold dec_Z. rewrite Hminus, HD. done.
  - change (pretty (Z.neg p)) with ("-" +:+ pretty (N.pos p)).
    rewrite string_app_assoc, string_app_cons, string_app_nil_l. unfold dec_Z.
    change (Ascii.eqb "-" "-") with true. cbv iota.
    by rewrite dec_N_until_pretty.
Qed.

Lemma split_at_app (a b : string) :
  split_at (String.length a) (a +:+ b) = Some (a, b).
Proof.
  induction a as [|c a IH]; [done|].
  rewrite string_app_cons. simpl. by rewrite IH.
Qed.

Lemma dec_string_enc_string (s rest : string) :
  dec_string (enc_string s +:+ rest) = Some (s, rest).
Proof.
  unfold enc_string, dec_string.
  rewrite !string_app_assoc, string_app_cons, string_app_nil_l.
  rewrite dec_N_until_pretty by done. simpl.
  rewrite Nat2N.id. apply split_at_app.
Qed.

Lemma dec_bool_enc_bool (b : bool) (rest : string) :
  dec_bool (enc_bool b +:+ rest) = Some (b, rest).
Proof. by destruct b. Qed.

Lemma decode_encode_task (t : Task) : decode_task (encode_task t) = Some t.
Proof.
  unfold encode_task, decode_task.
  rewrite <- (string_app_nil_r (enc_Z (UpdatedAt t))).
  repeat (rewrite ?dec_Z_enc_Z, ?dec_string_enc_string, ?dec_bool_enc_bool;
          cbn [mbind option_bind]).
  by destruct t.
Qed.

Lemma decode_encode_counter (n : Z) : decode_counter (enc_Z n) = Some n.
Proof.
  unfold decode_counter. rewrite <- (string_app_nil_r (enc_Z n)).
  by rewrite dec_Z_enc_Z.
Qed.

Lemma codec_task_round_trip : task_round_trip codec.
Proof. intros t data [= <-]. apply decode_encode_task. Qed.

Lemma codec_counter_round_trip : counter_round_trip codec.
Proof. intros n data [= <-]. apply decode_encode_counter. Qed.

Lemma codec_task_marshal_total : task_marshal_total codec.
Proof. intros t. by eexists. Qed.

Lemma codec_counter_marshal_total : counter_marshal_total codec.
Proof. intros n. by eexists. Qed.

End TextJSONFacts.

(** ** Progress and completion *)

Section ProgressFacts.
Import Models OS Storage Spec.
Context {J : JSON}.

(** What [UpdateTaskProgress] stores for an existing task. *)
Lemma UpdateTaskProgress_exists (now : Time) (id p : Z) (fs : FS) (t : Task) :
  task_round_trip J → task_marshal_total J → task_exists fs id t →
  ∃ fs',
    UpdateTaskProgress now id p fs = (fs', None) ∧
    GetTask id fs' =
      Ok (mkTask (ID t) (Title t) (Description t) (DueDate t) (Priority_ t)
            (if decide (p = 100) then true else Completed t) p
            (CreatedAt t) now).
Proof.
  intros Hrt Htot [Hget Hid]. unfold UpdateTaskProgress. rewrite Hget.
  set (t' := if decide (p = 100) then _ else _).
  assert (ID t' = id) as Hid' by (subst t'; by case_decide).
  destruct (saveTask_ok t' fs Htot) as (data & Hdata & Hsave).
  { rewrite Hid'. by eapply GetTask_is_file. }
  eexists. split; [exact Hsave|].
  rewrite <- Hid' at 1. erewrite GetTask_saveTask; [|done|exact Hsave].
  f_equal. subst t'. by case_decide.
Qed.

(** What [CompleteTask] stores for an existing task. *)
Lemma CompleteTask_exists (now : Time) (id : Z) (fs : FS) (t : Task) :
  task_round_trip J → task_marshal_total J → task_exists fs id t →
  ∃ fs',
    CompleteTask now id fs = (fs', None) ∧
    GetTask id fs' =
      Ok (mkTask (ID t) (Title t) (Description t) (DueDate t) (Priority_ t)
            true 100 (CreatedAt t) now).
Proof.
  intros Hrt Htot [Hget Hid]. unfold CompleteTask. rewrite Hget.
  set (t' := set_UpdatedAt _ _).
  assert (ID t' = id) as Hid' by done.
  destruct (saveTask_ok t' fs Htot) as (data & Hdata & Hsave).
  { rewrite Hid'. by eapply GetTask_is_file. }
  eexists. split; [exact Hsave|].
  rewrite <- Hid' at 1. by erewrite GetTask_saveTask; [|done|exact Hsave].
Qed.

(** C2: for an existing task, [UpdateTaskProgress(id, 100)] leaves the
    stored task completed, [CompleteTask(id)] leaves it with progress 100
    and completed; the progress stored is the one asked for (100 for
    [CompleteTask], never below a progress within [0,100]), whatever the
    completion flag was, and the flag is never cleared. *)
Theorem C2_progress_and_completion
    (now : Time) (id : Z) (fs : FS) (t : Task) :
  task_round_trip J → task_marshal_total J → task_exists fs id t →
  (∃ fs' t',
     UpdateTaskProgress now id 100 fs = (fs', None) ∧
     GetTask id fs' = Ok t' ∧ Completed t' = true) ∧
  (∃ fs' t',
     CompleteTask now id fs = (fs', None) ∧
     GetTask id fs' = Ok t' ∧ Progress t' = 100 ∧ Completed t' = true ∧
     (Progress t ≤ 100 → Progress t ≤ Progress t')) ∧
  (∀ p, ∃ fs' t',
     UpdateTaskProgress now id p fs = (fs', None) ∧
     GetTask id fs' = Ok t' ∧ Progress t' = p ∧
     (Completed t = true → Completed t' = true)).
Proof.
  intros Hrt Htot Hex. split_and!.
  - destruct (UpdateTaskProgress_exists now id 100 fs t) as (fs' & Hu & Hg);
      [done..|].
    eexists _, _. split_and!; [exact Hu|exact Hg|done].
  - destruct (CompleteTask_exists now id fs t) as (fs' & Hc & Hg); [done..|].
    eexists _, _. split_and!; [exact Hc|exact Hg|done..].
  - intros p.
    destruct (UpdateTaskProgress_exists now id p fs t) as (fs' & Hu & Hg);
      [done..|].
    eexists _, _. split_and!; [exact Hu|exact Hg|done|].
    simpl. intros ->. by case_decide.
Qed.

(** C3: for an existing task, the service's [UpdateTaskProgress(id, p)]
    with [p] in [0,100] succeeds and stores progress [p]; with [p] outside
    it fails with a validation error and the directory is as before. *)
Theorem C3_service_update_progress
    (now : Time) (id p : Z) (fs : FS) (t : Task) :
  task_round_trip J → task_marshal_total J → task_exists fs id t →
  (0 ≤ p ≤ 100 →
   ∃ fs' t',
     App.UpdateTaskProgress now id p fs = (fs', None) ∧
     GetTask id fs' = Ok t' ∧ Progress t' = p) ∧
  (¬ (0 ≤ p ≤ 100) →
   ∃ e,
     App.UpdateTaskProgress now id p fs = (fs, Some e) ∧
     is_validation e = true ∧ GetTask id fs = Ok t).
Proof.
  intros Hrt Htot Hex. unfold App.UpdateTaskProgress. split; intros Hp.
  - case_decide; [lia|].
    destruct (UpdateTaskProgress_exists now id p fs t) as (fs' & Hu & Hg);
      [done..|].
    eexists _, _. split_and!; [exact Hu|exact Hg|done].
  - case_decide; [|lia]. eexists. split_and!; [done..|]. apply Hex.
Qed.

End ProgressFacts.

(** ** Creating, editing and deleting *)

Section CrudFacts.
Import Models OS Storage Spec.
Context {J : JSON}.

(** The task [CreateTask] hands back and the counter it leaves, whatever
    happens to the two writes. *)
Lemma CreateTask_assigns (now : Time) (task task' : Task)
    (s s' : FileStorage) (fs fs' : FS) (err : option error) :
  CreateTask now task s fs = (s', fs', task', err) →
  s' = mkFileStorage (Int64.wrap (nextID s + 1)) ∧
  task' = mkTask (nextID s) (Title task) (Description task) (DueDate task)
            (Priority_ task) (Completed task) (Progress task) now now.
Proof.
  unfold CreateTask. intros H.
  destruct (saveCounter _ fs) as [fs1 [e|]]; [by simplify_eq|].
  destruct (saveTask _ fs1) as [fs2 e]. by simplify_eq.
Qed.

(** C6: right after a successful [CreateTask], [GetTask] of the id it
    assigned returns the record created, whose title, description, due
    date, priority, progress and completion flag are the caller's. *)
Theorem C6_create_then_get (now : Time) (task task' : Task)
    (s s' : FileStorage) (fs fs' : FS) :
  task_round_trip J →
  CreateTask now task s fs = (s', fs', task', None) →
  GetTask (ID task') fs' = Ok task' ∧ same_supplied_fields task' task.
Proof.
  intros Hrt Hc.
  destruct (CreateTask_assigns _ _ _ _ _ _ _ _ Hc) as [-> Ht'].
  split; [|by subst task'].
  unfold CreateTask in Hc.
  destruct (saveCounter _ fs) as [fs1 [e|]]; [by simplify_eq|].
  destruct (saveTask _ fs1) as [fs2 e] eqn:Hsave. simplify_eq.
  by apply (GetTask_saveTask _ fs1).
Qed.

(** C5: [CreateTask] always leaves the in-memory counter one past the id
    it assigned.  The counter is persisted first: when the counter cannot
    be saved nothing is written, and when the record cannot be written
    the directory already holds the advanced counter and no record for
    the id, which the counter now points past.  The record write does
    fail when a directory sits at the record's name. *)
Theorem C5_counter_advances_before_record (now : Time) (task task' : Task)
    (s s' : FileStorage) (fs fs' : FS) (err : option error) :
  CreateTask now task s fs = (s', fs', task', err) →
  ID task' = nextID s ∧ nextID s' = Int64.wrap (nextID s + 1) ∧
  (∀ e, err = Some (ErrWriteTask e) →
     (∃ data, marshalCounter (nextID s') = Some data ∧
              fs' = <[counterFile := File data]> fs) ∧
     fs' !! getTaskFilename (ID task') = fs !! getTaskFilename (ID task') ∧
     ∃ d, fs !! getTaskFilename (ID task') = Some (Dir d)) ∧
  (∀ e, err = Some (ErrWriteCounter e) → fs' = fs) ∧
  (err = None →
     ∃ cdata tdata,
       marshalCounter (nextID s') = Some cdata ∧
       marshalTask task' = Some tdata ∧
       fs' = <[getTaskFilename (ID task') := File tdata]>
               (<[counterFile := File cdata]> fs)) ∧
  (task_marshal_total J → counter_marshal_total J →
   (∀ d, fs !! counterFile ≠ Some (Dir d)) →
   (∃ d, fs !! getTaskFilename (nextID s) = Some (Dir d)) →
   err = Some (ErrWriteTask EISDIR)).
Proof.
  intros Hc. unfold CreateTask in Hc.
  set (tk := set_UpdatedAt now (set_CreatedAt now (set_ID (nextID s) task)))
    in Hc.
  set (s1 := mkFileStorage (Int64.wrap (nextID s + 1))) in Hc.
  assert (ID tk = nextID s) as HID by done.
  assert (nextID s1 = Int64.wrap (nextID s + 1)) as Hnext by done.
  clearbody tk s1.
  destruct (saveCounter s1 fs) as [fs1 cerr] eqn:Hsc.
  unfold saveCounter in Hsc.
  destruct (marshalCounter (nextID s1)) as [cdata|] eqn:Hmc.
  2:{ simplify_eq. split_and!; try done.
      intros _ Htot. destruct (Htot (nextID s')). congruence. }
  destruct (WriteFile counterFile cdata fs) as [fs1' [ce|]] eqn:Hwc.
  { apply WriteFile_inv in Hwc as [(?&?&?)|(?&?&Hd)]; simplify_eq.
    split_and!; try done. intros _ _ Hnd. destruct Hd as [d Hd].
    by destruct (Hnd d). }
  apply WriteFile_inv in Hwc as [(_&->&_)|(?&?&?)]; simplify_eq.
  destruct (saveTask tk _) as [fs2 terr] eqn:Hst. simplify_eq.
  unfold saveTask in Hst.
  destruct (marshalTask task') as [tdata|] eqn:Hmt.
  2:{ simplify_eq. split_and!; try done.
      intros Htot. destruct (Htot task'). congruence. }
  assert (getTaskFilename (ID task') ≠ counterFile) as Hne
    by apply getTaskFilename_ne_counter.
  destruct (WriteFile _ tdata _) as [fs2' [te|]] eqn:Hwt.
  - apply WriteFile_inv in Hwt as [(?&?&?)|([= ->]&->&(d&Hd))]; simplify_eq.
    rewrite lookup_insert_ne in Hd by done.
    split_and!; try done.
    intros e [= <-]. split_and!; [by eauto| |by eauto].
    by apply lookup_insert_ne.
  - apply WriteFile_inv in Hwt as [(_&->&Hnd)|(?&?&?)]; simplify_eq.
    split_and!; try done; [by eauto|].
    intros _ _ _ [d Hd]. destruct (Hnd d).
    rewrite lookup_insert_ne by done. by rewrite HID.
Qed.

(** C7: for an existing task, [UpdateTaskDetails] stores the four fields
    it is given (an empty description included), stamps [updated_at] and
    leaves id, completion flag, progress and [created_at] as they were;
    when no record is filed under the id it fails with a not-found error
    and the directory is as before. *)
Theorem C7_update_details (now : Time) (id : Z) (title desc : string)
    (dueDate : Time) (priority : Priority) (fs : FS) :
  task_round_trip J → task_marshal_total J →
  (∀ t, task_exists fs id t →
     ∃ fs' t',
       App.UpdateTaskDetails now id title desc dueDate priority fs
         = (fs', None) ∧
       GetTask id fs' = Ok t' ∧
       Title t' = title ∧ Description t' = desc ∧ DueDate t' = dueDate ∧
       Priority_ t' = priority ∧ UpdatedAt t' = now ∧
       ID t' = ID t ∧ Completed t' = Completed t ∧
       Progress t' = Progress t ∧ CreatedAt t' = CreatedAt t) ∧
  (fs !! getTaskFilename id = None →
     ∃ e,
       App.UpdateTaskDetails now id title desc dueDate priority fs
         = (fs, Some e) ∧
       is_not_found e = true).
Proof.
  intros Hrt Htot. unfold App.UpdateTaskDetails, App.GetTask. split.
  - intros t [Hget Hid]. rewrite Hget. unfold UpdateTask.
    set (t1 := set_Priority _ _).
    assert (ID t1 = id) as Hid1 by done.
    rewrite Hid1, Hget.
    set (t' := set_UpdatedAt now t1).
    assert (ID t' = id) as Hid' by done.
    destruct (saveTask_ok t' fs Htot) as (data & Hdata & Hsave).
    { rewrite Hid'. by eapply GetTask_is_file. }
    rewrite Hsave. eexists _, t'. split; [done|].
    split; [|done].
    rewrite <- Hid' at 1. by eapply GetTask_saveTask.
  - intros Hnone. rewrite (GetTask_not_found _ _ Hnone). by eexists.
Qed.

(** C8: after a [DeleteTask(id)] that succeeds, [GetTask(id)] fails with
    a not-found error, and [DeleteTask] of a stored record does succeed;
    when nothing is filed under [id], [DeleteTask(id)] itself fails with
    a not-found error, leaves the directory as it was, and [GetTask(id)]
    is not-found as well. *)
Theorem C8_delete (id : Z) (fs : FS) :
  (∀ fs', DeleteTask id fs = (fs', None) →
     GetTask id fs' = Err (ErrTaskNotFound id)) ∧
  (∀ data, fs !! getTaskFilename id = Some (File data) →
     DeleteTask id fs = (delete (getTaskFilename id) fs, None)) ∧
  (fs !! getTaskFilename id = None →
     DeleteTask id fs = (fs, Some (ErrTaskNotFound id)) ∧
     GetTask id fs = Err (ErrTaskNotFound id)) ∧
  is_not_found (ErrTaskNotFound id) = true.
Proof.
  unfold DeleteTask, Stat, Remove. split_and!; [| | |done].
  - intros fs' H. apply GetTask_not_found.
    repeat case_match; simplify_eq; apply lookup_delete_eq.
  - by intros data ->.
  - intros Hnone. rewrite Hnone. split; [done|]. by apply GetTask_not_found.
Qed.

End CrudFacts.

(** ** The id counter *)

Section CounterFacts.
Import Models OS Storage Spec.
Context {J : JSON}.

Lemma wrap_in_range (z : Z) : Int64.in_range z → Int64.wrap z = z.
Proof.
  unfold Int64.in_range, Int64.MinInt64, Int64.MaxInt64, Int64.wrap.
  intros Hz. rewrite Z.mod_small; lia.
Qed.

(** The service's [CreateTask] when neither write is blocked. *)
Lemma App_CreateTask_ok (now : Time) (title desc : string) (dueDate : Time)
    (priority : Priority) (s : FileStorage) (fs : FS) :
  counter_marshal_total J → task_marshal_total J →
  title ≠ "" →
  (∀ d, fs !! counterFile ≠ Some (Dir d)) →
  (∀ d, fs !! getTaskFilename (nextID s) ≠ Some (Dir d)) →
  ∃ cdata tdata,
    marshalCounter (Int64.wrap (nextID s + 1)) = Some cdata ∧
    marshalTask (mkTask (nextID s) title desc dueDate priority false 0
                   now now) = Some tdata ∧
    App.CreateTask now title desc dueDate priority s fs =
      (mkFileStorage (Int64.wrap (nextID s + 1)),
       <[getTaskFilename (nextID s) := File tdata]>
         (<[counterFile := File cdata]> fs),
       Ok (mkTask (nextID s) title desc dueDate priority false 0 now now)).
Proof.
  intros Hct Htt Htitle Hc Ht. unfold App.CreateTask, CreateTask.
  case_decide; [done|].
  set (s1 := mkFileStorage _).
  destruct (saveCounter_ok s1 fs Hct Hc) as (cdata & Hcd & ->).
  set (t1 := set_UpdatedAt _ _).
  destruct (saveTask_ok t1 (<[counterFile := File cdata]> fs) Htt)
    as (tdata & Htd & ->).
  { intros d. rewrite lookup_insert_ne; [apply Ht|].
    symmetry. apply getTaskFilename_ne_counter. }
  by exists cdata, tdata.
Qed.

(** C9: on a directory with no counter record, [Init] sets the counter
    to 1 and persists it; the first task then created gets id 1,
    progress 0 and is not completed; a second create gets id 2 and the
    persisted counter then decodes to 3. *)
Theorem C9_fresh_store (s : FileStorage) (fs : FS) (now1 now2 : Time)
    (title1 desc1 title2 desc2 : string) (due1 due2 : Time)
    (prio1 prio2 : Priority) :
  counter_round_trip J → counter_marshal_total J → task_marshal_total J →
  fs !! counterFile = None →
  (∀ d, fs !! getTaskFilename 1 ≠ Some (Dir d)) →
  (∀ d, fs !! getTaskFilename 2 ≠ Some (Dir d)) →
  title1 ≠ "" → title2 ≠ "" →
  ∃ s1 fs1 data1,
    Init s fs = (s1, fs1, None) ∧ nextID s1 = 1 ∧
    ReadFile counterFile fs1 = inr data1 ∧ unmarshalCounter data1 = Some 1 ∧
    ∃ s2 fs2 t1,
      App.CreateTask now1 title1 desc1 due1 prio1 s1 fs1 = (s2, fs2, Ok t1) ∧
      ID t1 = 1 ∧ Progress t1 = 0 ∧ Completed t1 = false ∧
      ∃ s3 fs3 t2 data3,
        App.CreateTask now2 title2 desc2 due2 prio2 s2 fs2
          = (s3, fs3, Ok t2) ∧
        ID t2 = 2 ∧
        ReadFile counterFile fs3 = inr data3 ∧
        unmarshalCounter data3 = Some 3.
Proof.
  intros Hcrt Hct Htt Hnone Hf1 Hf2 Ht1 Ht2.
  unfold Init, MkdirAll, ReadFile. rewrite Hnone. simpl IsNotExist. cbv iota.
  destruct (saveCounter_ok (mkFileStorage 1) fs Hct) as (d1 & Hd1 & ->).
  { intros d. by rewrite Hnone. }
  eexists _, _, d1. split; [done|]. split; [done|].
  rewrite lookup_insert_eq. split; [done|]. split; [by apply Hcrt|].
  set (fs1 := <[counterFile := File d1]> fs).
  assert (∀ id d, fs1 !! getTaskFilename id = Some (Dir d) →
                  fs !! getTaskFilename id = Some (Dir d)) as Hfs1.
  { intros id d. subst fs1. rewrite lookup_insert_ne; [done|].
    symmetry. apply getTaskFilename_ne_counter. }
  destruct (App_CreateTask_ok now1 title1 desc1 due1 prio1
              (mkFileStorage 1) fs1 Hct Htt Ht1) as (d2 & td1 & Hd2 & _ & ->).
  { intros d. subst fs1. by rewrite lookup_insert_eq. }
  { intros d Hd. by destruct (Hf1 d); apply Hfs1. }
  eexists _, _, _. split; [done|]. split_and!; [done..|].
  simpl nextID in *. change (Int64.wrap (1 + 1)) with 2 in *.
  set (fs2 := <[getTaskFilename 1 := _]> _).
  destruct (App_CreateTask_ok now2 title2 desc2 due2 prio2
              (mkFileStorage 2) fs2 Hct Htt Ht2) as (d3 & td2 & Hd3 & _ & ->).
  { intros d. subst fs2.
    rewrite lookup_insert_ne by apply getTaskFilename_ne_counter.
    by rewrite lookup_insert_eq. }
  { intros d. subst fs2. simpl.
    rewrite lookup_insert_ne by (intros ?%getTaskFilename_inj; done).
    rewrite lookup_insert_ne by (symmetry; apply getTaskFilename_ne_counter).
    intros Hd. by destruct (Hf2 d); apply Hfs1. }
  eexists _, _, _, d3. split; [done|]. split; [done|].
  simpl nextID in *. change (Int64.wrap (2 + 1)) with 3 in *.
  rewrite lookup_insert_ne by apply getTaskFilename_ne_counter.
  rewrite lookup_insert_eq. split; [done|]. by apply Hcrt.
Qed.

(** The tasks [create_all] hands back carry consecutive ids from the
    counter on, as long as the counter stays within [int64]. *)
Lemma create_all_ids (calls : list (Time * Task)) :
  ∀ (s : FileStorage) (fs : FS) (i : nat) (r : Task * option error),
    Int64.in_range (nextID s) →
    nextID s + Z.of_nat (length calls) ≤ Int64.MaxInt64 + 1 →
    (create_all calls s fs).2 !! i = Some r →
    ID r.1 = nextID s + Z.of_nat i ∧ CreatedAt r.1 = UpdatedAt r.1.
Proof.
  induction calls as [|[now task] calls IH]; intros s fs i r Hr Hb Hi;
    [done|].
  simpl in Hi.
  destruct (CreateTask now task s fs) as [[[s1 fs1] t1] e1] eqn:Hc.
  destruct (create_all calls s1 fs1) as [[s2 fs2] out] eqn:Hall.
  apply CreateTask_assigns in Hc as [-> ->].
  destruct i as [|i]; simpl in Hi.
  - simplify_eq. simpl. split; [lia|done].
  - destruct calls as [|c calls]; [simpl in Hall; by simplify_eq|].
    assert (Int64.in_range (nextID s + 1)) as Hr1.
    { unfold Int64.in_range, Int64.MaxInt64, Int64.MinInt64 in *.
      simpl length in Hb. lia. }
    specialize (IH (mkFileStorage (Int64.wrap (nextID s + 1))) fs1 i r).
    rewrite Hall in IH. simpl in IH. rewrite wrap_in_range in IH by done.
    destruct IH as [IH1 IH2]; [done| |done|].
    { simpl length in *. lia. }
    split; [lia|done].
Qed.

(** C1, as the code has it: over any sequence of [CreateTask] calls on
    one store during which the counter stays within [int64], every task
    handed back has an id strictly greater than those handed back before
    it, and its [created_at] equals its [updated_at]. *)
Theorem C1_ids_increase (calls : list (Time * Task)) (s : FileStorage)
    (fs : FS) :
  Int64.in_range (nextID s) →
  nextID s + Z.of_nat (length calls) ≤ Int64.MaxInt64 + 1 →
  ids_increase (create_all calls s fs).2.*1 ∧
  Forall (λ r, CreatedAt r.1 = UpdatedAt r.1) (create_all calls s fs).2.
Proof.
  intros Hr Hb. split.
  - intros i j a b Ha Hb' Hij.
    rewrite list_lookup_fmap in Ha, Hb'.
    destruct ((create_all calls s fs).2 !! i) as [ra|] eqn:Hia; [|done].
    destruct ((create_all calls s fs).2 !! j) as [rb|] eqn:Hjb; [|done].
    simpl in *. simplify_eq.
    destruct (create_all_ids calls s fs i ra Hr Hb Hia) as [-> _].
    destruct (create_all_ids calls s fs j rb Hr Hb Hjb) as [-> _].
    lia.
  - apply Forall_lookup. intros i r Hi.
    by destruct (create_all_ids calls s fs i r Hr Hb Hi).
Qed.

End CounterFacts.

(** ** Listing *)

Section ListingFacts.
Import Models OS Storage Spec.
Context {J : JSON}.

#[local] Instance id_le_total : Total id_le.
Proof. intros a b. unfold id_le. lia. Qed.

Lemma omap_ext_in {A B} (f g : A → option B) (l : list A) :
  (∀ x, x ∈ l → f x = g x) → omap f l = omap g l.
Proof.
  induction l as [|x l IH]; intros H; [done|]. csimpl.
  rewrite (H x) by left. rewrite IH; [done|].
  intros y Hy. apply H. by right.
Qed.

(** The loop appends, entry by entry, what [listed_record] finds. *)
Lemma GetAllTasks_loop_omap (fs : FS) (files : list (string * Node)) :
  ∀ tasks,
    GetAllTasks_loop fs files tasks = tasks ++ omap (listed_record fs) files.
Proof.
  induction files as [|[name node] files IH]; intros tasks; simpl.
  - by rewrite app_nil_r.
  - unfold listed_record at 1, task_name_id. simpl.
    destruct node as [data|d]; simpl; [|by rewrite IH].
    destruct (Strings.HasPrefix name "task_"); simpl; [|by rewrite IH].
    destruct (Strings.HasSuffix name ".json"); simpl; [|by rewrite IH].
    destruct (Strconv.ParseInt _) as [id|]; [|by rewrite IH].
    destruct (GetTask id fs) as [task|e]; [|by rewrite IH].
    rewrite IH. by rewrite <- app_assoc.
Qed.

(** With canonical names, the record found for an entry is the entry's
    own. *)
Lemma listed_record_canonical (fs : FS) (entry : string * Node) :
  canonical_names fs → entry ∈ map_to_list fs →
  listed_record fs entry = named_record entry.
Proof.
  intros Hcan Hin. destruct entry as [name node].
  apply elem_of_map_to_list in Hin.
  unfold listed_record, named_record. simpl.
  destruct node as [data|d]; [|done].
  destruct (task_name_id name) as [id|] eqn:Hid; [|done].
  apply task_name_id_spec in Hid.
  pose proof (Hcan name data id Hin Hid) as ->.
  unfold GetTask, ReadFile. rewrite Hin. by destruct (unmarshalTask data).
Qed.

(** C4, as the code has it: [GetAllTasks] never fails and returns, by
    ascending id, one record for every regular file named [task_<s>.json]
    whose segment [s] parses to an id [n] whose record [task_<n>.json]
    reads and decodes, namely that record; every other entry (a
    directory, another name, the counter file, a segment that does not
    parse, a record that does not read or decode) is skipped.  When the
    id segments are written as the store writes them, these are exactly
    the records of the task-named files that decode.  An empty directory
    gives the empty list. *)
Theorem C4_listing (fs : FS) :
  ∃ l,
    GetAllTasks fs = Ok l ∧ Sorted id_le l ∧
    l ≡ₚ omap (listed_record fs) (map_to_list fs) ∧
    (∀ t, t ∈ l ↔
          ∃ name data id,
            fs !! name = Some (File data) ∧ is_task_name name id ∧
            GetTask id fs = Ok t) ∧
    (canonical_names fs → l ≡ₚ omap named_record (map_to_list fs)) ∧
    (fs = ∅ → l = []) ∧
    task_name_id counterFile = None.
Proof.
  unfold GetAllTasks, ReadDir, sort_by_ID.
  rewrite GetAllTasks_loop_omap, app_nil_l.
  eexists. split; [done|].
  assert (merge_sort id_le
            (omap (listed_record fs) (merge_sort name_le (map_to_list fs)))
          ≡ₚ omap (listed_record fs) (map_to_list fs)) as Hperm.
  { by rewrite !merge_sort_Permutation. }
  split_and!.
  - apply Sorted_merge_sort. apply _.
  - done.
  - intros t. rewrite Hperm, list_elem_of_omap. split.
    + intros ([name node] & Hin & Hrec).
      apply elem_of_map_to_list in Hin.
      unfold listed_record in Hrec. simpl in Hrec.
      destruct node as [data|d]; [|done].
      destruct (task_name_id name) as [id|] eqn:Hid; [|done].
      apply task_name_id_spec in Hid.
      destruct (GetTask id fs) as [t'|e] eqn:Hget; simplify_eq.
      by exists name, data, id.
    + intros (name & data & id & Hin & Hid & Hget).
      exists (name, File data). split; [by apply elem_of_map_to_list|].
      apply task_name_id_spec in Hid.
      unfold listed_record. simpl. by rewrite Hid, Hget.
  - intros Hcan. rewrite Hperm.
    by rewrite (omap_ext_in _ named_record)
      by (intros; by apply listed_record_canonical).
  - intros ->. by rewrite map_to_list_empty.
  - reflexivity.
Qed.

End ListingFacts.

(** ** The completion flag *)

Section CompletionFacts.
Import Models OS Storage Spec.
Context {J : JSON}.

(** Saving a record keeps task [id] completed when the record saved is
    another task's or is itself completed. *)
Lemma saveTask_keeps (tk : Task) (fs : FS) (id : Z) (t t' : Task) :
  task_round_trip J →
  (ID tk = id → Completed tk = true) →
  GetTask id fs = Ok t → Completed t = true →
  GetTask id (saveTask tk fs).1 = Ok t' → Completed t' = true.
Proof.
  intros Hrt Htk Hget Hc Hget'.
  destruct (decide (id = ID tk)) as [->|Hne].
  - destruct (saveTask tk fs) as [fs' [e|]] eqn:Hs.
    + apply saveTask_inv in Hs as [([=] & _)|(_ & ->)].
      simpl in Hget'. congruence.
    + simpl in Hget'. rewrite (GetTask_saveTask _ _ _ Hrt Hs) in Hget'.
      simplify_eq. auto.
  - rewrite GetTask_saveTask_ne in Hget' by done. congruence.
Qed.

Lemma DeleteTask_inv (id : Z) (fs fs' : FS) (err : option error) :
  DeleteTask id fs = (fs', err) →
  (is_Some err ∧ fs' = fs) ∨
  (err = None ∧ fs' = delete (getTaskFilename id) fs).
Proof.
  unfold DeleteTask, Stat, Remove. intros H.
  repeat case_match; simplify_eq; eauto.
Qed.

Lemma CreateTask_keeps (now : Time) (task : Task) (s : FileStorage) (fs : FS)
    (id : Z) :
  task_round_trip J → nextID s ≠ id →
  keeps_completed (λ s fs, (CreateTask now task s fs).1.1) s fs id.
Proof.
  intros Hrt Hne t t' Hget Hc. unfold CreateTask.
  set (tk := set_UpdatedAt _ _). set (s1 := mkFileStorage _).
  pose proof (GetTask_saveCounter id s1 fs) as Hsc.
  destruct (saveCounter s1 fs) as [fs1 [e|]]; simpl in *.
  - congruence.
  - rewrite <- Hsc in Hget. intros Hget'.
    apply (saveTask_keeps tk fs1 id t t'); try done.
    by destruct (saveTask tk fs1).
Qed.

Lemma Init_keeps (s : FileStorage) (fs : FS) (id : Z) :
  keeps_completed (λ s fs, (Init s fs).1) s fs id.
Proof.
  intros t t' Hget Hc. unfold Init, MkdirAll.
  destruct (ReadFile counterFile fs) as [e|data].
  - destruct (IsNotExist e); simpl; [|congruence].
    pose proof (GetTask_saveCounter id (mkFileStorage 1) fs) as Hsc.
    destruct (saveCounter _ fs) as [fs1 err]. simpl in *. congruence.
  - destruct (unmarshalCounter data); simpl; congruence.
Qed.

Lemma CompleteTask_keeps (now : Time) (id' : Z) (s : FileStorage) (fs : FS)
    (id : Z) :
  task_round_trip J →
  keeps_completed (λ s fs, (s, (CompleteTask now id' fs).1)) s fs id.
Proof.
  intros Hrt t t' Hget Hc. unfold CompleteTask. simpl.
  destruct (GetTask id' fs) as [t0|e]; simpl; [|congruence].
  set (tk := set_UpdatedAt _ _). intros Hget'.
  by apply (saveTask_keeps tk fs id t t').
Qed.

Lemma UpdateTaskProgress_keeps (now : Time) (id' p : Z) (s : FileStorage)
    (fs : FS) (id : Z) :
  task_round_trip J → consistent fs →
  keeps_completed (λ s fs, (s, (UpdateTaskProgress now id' p fs).1)) s fs id.
Proof.
  intros Hrt Hcons t t' Hget Hc. unfold UpdateTaskProgress. simpl.
  destruct (GetTask id' fs) as [t0|e] eqn:Hget0; simpl; [|congruence].
  set (tk := if decide (p = 100) then _ else _). intros Hget'.
  apply (saveTask_keeps tk fs id t t'); try done.
  pose proof (Hcons _ _ Hget0) as Hid0.
  intros Hid. assert (ID t0 = id) as Heq by (subst tk; by case_decide).
  assert (t0 = t) as -> by congruence.
  subst tk. by case_decide.
Qed.

Lemma UpdateTaskDetails_keeps (now : Time) (id' : Z) (title desc : string)
    (dueDate : Time) (priority : Priority) (s : FileStorage) (fs : FS)
    (id : Z) :
  task_round_trip J → consistent fs →
  keeps_completed
    (λ s fs, (s, (App.UpdateTaskDetails now id' title desc dueDate priority
                    fs).1)) s fs id.
Proof.
  intros Hrt Hcons t t' Hget Hc. unfold App.UpdateTaskDetails, App.GetTask.
  simpl.
  destruct (GetTask id' fs) as [t0|e] eqn:Hget0; simpl; [|congruence].
  pose proof (Hcons _ _ Hget0) as Hid0.
  unfold UpdateTask. simpl. rewrite Hid0, Hget0.
  set (tk := set_UpdatedAt _ _). intros Hget'.
  apply (saveTask_keeps tk fs id t t'); try done.
  - intros Hid. assert (t0 = t) as -> by (simpl in Hid; congruence). done.
  - by destruct (saveTask tk fs).
Qed.

Lemma DeleteTask_keeps (id' : Z) (s : FileStorage) (fs : FS) (id : Z) :
  keeps_completed (λ s fs, (s, (DeleteTask id' fs).1)) s fs id.
Proof.
  intros t t' Hget Hc. simpl.
  destruct (DeleteTask id' fs) as [fs' err] eqn:Hd.
  apply DeleteTask_inv in Hd as [(_ & ->)|(_ & ->)]; simpl; [congruence|].
  destruct (decide (id' = id)) as [->|Hne].
  - by rewrite GetTask_not_found by apply lookup_delete_eq.
  - rewrite (GetTask_ext id fs); [congruence|].
    apply lookup_delete_ne. intros ?%getTaskFilename_inj. done.
Qed.

Lemma run_app_keeps (now : Time) (c : AppCall) (s : FileStorage) (fs : FS)
    (id : Z) :
  task_round_trip J → consistent fs → nextID s ≠ id →
  keeps_completed (run_app now c) s fs id.
Proof.
  intros Hrt Hcons Hne. destruct c.
  - exact (Init_keeps s fs id).
  - intros t t' ? ? ?; simpl in *; congruence.
  - intros t t' Hget Hc. simpl. unfold App.CreateTask.
    case_decide; [simpl; congruence|].
    set (task := mkTask _ _ _ _ _ _ _ _ _).
    pose proof (CreateTask_keeps now task s fs id Hrt Hne t t' Hget Hc)
      as Hkeep.
    simpl in Hkeep.
    by destruct (CreateTask now task s fs) as [[[s1 fs1] t1] [e|]].
  - intros t t' ? ? ?; simpl in *; congruence.
  - intros t t' ? ? ?; simpl in *; congruence.
  - exact (DeleteTask_keeps _ s fs id).
  - exact (CompleteTask_keeps now _ s fs id Hrt).
  - intros t t' Hget Hc. simpl. unfold App.UpdateTaskProgress.
    case_decide; [simpl; congruence|].
    exact (UpdateTaskProgress_keeps now _ _ s fs id Hrt Hcons t t' Hget Hc).
  - exact (UpdateTaskDetails_keeps now _ _ _ _ _ s fs id Hrt Hcons).
Qed.

Lemma run_store_keeps (now : Time) (c : StoreCall) (s : FileStorage) (fs : FS)
    (id : Z) :
  task_round_trip J → consistent fs → nextID s ≠ id →
  (∀ task, c ≠ SUpdateTask task) →
  keeps_completed (run_store now c) s fs id.
Proof.
  intros Hrt Hcons Hne Hc. destruct c.
  - exact (Init_keeps s fs id).
  - intros t t' ? ? ?; simpl in *; congruence.
  - exact (CreateTask_keeps now _ s fs id Hrt Hne).
  - intros t t' ? ? ?; simpl in *; congruence.
  - intros t t' ? ? ?; simpl in *; congruence.
  - by destruct (Hc task).
  - exact (DeleteTask_keeps _ s fs id).
  - exact (CompleteTask_keeps now _ s fs id Hrt).
  - exact (UpdateTaskProgress_keeps now _ _ s fs id Hrt Hcons).
Qed.

Lemma Init_fresh (s : FileStorage) (fs : FS) :
  counter_marshal_total J → fs !! counterFile = None →
  ∃ data,
    marshalCounter 1 = Some data ∧
    Init s fs = (mkFileStorage 1, <[counterFile := File data]> fs, None).
Proof.
  intros Hct Hnone. unfold Init, MkdirAll, ReadFile. rewrite Hnone.
  simpl IsNotExist. cbv iota.
  destruct (saveCounter_ok (mkFileStorage 1) fs Hct) as (d1 & Hd1 & ->).
  { intros d. by rewrite Hnone. }
  by exists d1.
Qed.

Lemma run_app_all_cons (now : Time) (c : AppCall)
    (calls : list (Time * AppCall)) (s : FileStorage) (fs : FS) :
  run_app_all ((now, c) :: calls) s fs =
  run_app_all calls (run_app now c s fs).1 (run_app now c s fs).2.
Proof. simpl. by destruct (run_app now c s fs). Qed.

(** A completed task with progress below 100, reached from an empty
    directory by service calls alone. *)
Lemma completed_below_100_reachable :
  task_round_trip J → task_marshal_total J → counter_marshal_total J →
  ∃ t,
    GetTask 1
      (run_app_all
         [(0, AInitialize); (0, ACreateTask "t" "" 0 Low);
          (0, ACompleteTask 1); (0, AUpdateTaskProgress 1 50)]
         (mkFileStorage 0) ∅).2 = Ok t ∧
    Completed t = true ∧ Progress t = 50.
Proof.
  intros Hrt Htt Hct.
  destruct (Init_fresh (mkFileStorage 0) ∅ Hct) as (d1 & _ & HI); [done|].
  rewrite run_app_all_cons. cbn [run_app]. unfold App.Initialize.
  rewrite HI. cbn [fst snd].
  set (fs1 := <[counterFile := File d1]> ∅).
  destruct (App_CreateTask_ok 0 "t" "" 0 Low (mkFileStorage 1) fs1 Hct Htt)
    as (d2 & td & _ & Htd & HC); [done| | |].
  { intros d. subst fs1. by rewrite lookup_insert_eq. }
  { intros d. subst fs1.
    rewrite lookup_insert_ne by (symmetry; apply getTaskFilename_ne_counter).
    by rewrite lookup_empty. }
  rewrite run_app_all_cons. cbn [run_app]. rewrite HC. cbn [fst snd nextID].
  set (fs2 := <[getTaskFilename 1 := File td]> _).
  set (t1 := mkTask 1 "t" "" 0 Low false 0 0 0) in *.
  assert (task_exists fs2 1 t1) as Hex1.
  { split; [|done]. apply GetTask_lookup. exists td.
    subst fs2. rewrite lookup_insert_eq. split; [done|]. by apply Hrt. }
  destruct (CompleteTask_exists 0 1 fs2 t1 Hrt Htt Hex1) as (fs3 & HCo & Hg3).
  rewrite run_app_all_cons. cbn [run_app]. unfold App.CompleteTask.
  rewrite HCo. cbn [fst snd].
  set (t3 := mkTask _ _ _ _ _ true 100 _ _) in Hg3.
  assert (task_exists fs3 1 t3) as Hex3 by done.
  destruct (UpdateTaskProgress_exists 0 1 50 fs3 t3 Hrt Htt Hex3)
    as (fs4 & HU & Hg4).
  rewrite run_app_all_cons. cbn [run_app]. unfold App.UpdateTaskProgress.
  case_decide; [lia|]. rewrite HU. cbn [fst snd run_app_all].
  eexists. split; [exact Hg4|]. done.
Qed.

End CompletionFacts.

(** ** Records stay filed under their ids *)

Section ConsistencyFacts.
Import Models OS Storage Spec.
Context {J : JSON}.

Lemma consistent_empty : consistent ∅.
Proof.
  intros id t (data & Hl & _)%GetTask_lookup. by rewrite lookup_empty in Hl.
Qed.

Lemma saveTask_consistent (tk : Task) (fs : FS) :
  task_round_trip J → consistent fs → consistent (saveTask tk fs).1.
Proof.
  intros Hrt Hcons id t Hget.
  destruct (decide (id = ID tk)) as [->|Hne].
  - destruct (saveTask tk fs) as [fs' [e|]] eqn:Hs.
    + apply saveTask_inv in Hs as [([=] & _)|(_ & ->)]. by apply Hcons.
    + simpl in Hget. rewrite (GetTask_saveTask _ _ _ Hrt Hs) in Hget.
      by simplify_eq.
  - rewrite GetTask_saveTask_ne in Hget by done. by apply Hcons.
Qed.

Lemma saveCounter_consistent (s : FileStorage) (fs : FS) :
  consistent fs → consistent (saveCounter s fs).1.
Proof.
  intros Hcons id t Hget. rewrite GetTask_saveCounter in Hget.
  by apply Hcons.
Qed.

Lemma DeleteTask_consistent (id' : Z) (fs : FS) :
  consistent fs → consistent (DeleteTask id' fs).1.
Proof.
  intros Hcons id t Hget.
  destruct (DeleteTask id' fs) as [fs' err] eqn:Hd.
  apply DeleteTask_inv in Hd as [(_ & ->)|(_ & ->)]; [by apply Hcons|].
  simpl in Hget. apply GetTask_lookup in Hget as (data & Hl & Hu).
  apply lookup_delete_Some in Hl as [_ Hl].
  apply Hcons, GetTask_lookup. eauto.
Qed.

(** Every service call leaves the records filed under their own ids; so
    they are in any directory the service has built up from an empty
    one. *)
Lemma run_app_consistent (now : Time) (c : AppCall) (s : FileStorage)
    (fs : FS) :
  task_round_trip J → consistent fs → consistent (run_app now c s fs).2.
Proof.
  intros Hrt Hcons. destruct c; simpl; try done.
  - unfold App.Initialize, Init, MkdirAll.
    destruct (ReadFile counterFile fs) as [e|data].
    + destruct (IsNotExist e); [|done].
      pose proof (saveCounter_consistent (mkFileStorage 1) fs Hcons).
      by destruct (saveCounter _ fs).
    + by destruct (unmarshalCounter data).
  - unfold App.CreateTask. case_decide; [done|]. unfold CreateTask.
    set (tk := set_UpdatedAt _ _). set (s1 := mkFileStorage _).
    pose proof (saveCounter_consistent s1 fs Hcons) as H1.
    destruct (saveCounter s1 fs) as [fs1 [e|]]; [done|].
    pose proof (saveTask_consistent tk fs1 Hrt H1) as H2.
    by destruct (saveTask tk fs1) as [fs2 [e|]].
  - by apply DeleteTask_consistent.
  - unfold App.CompleteTask, CompleteTask.
    destruct (GetTask id fs); [|done]. by apply saveTask_consistent.
  - unfold App.UpdateTaskProgress. case_decide; [done|].
    unfold UpdateTaskProgress.
    destruct (GetTask id fs); [|done]. by apply saveTask_consistent.
  - unfold App.UpdateTaskDetails, App.GetTask.
    destruct (GetTask id fs) as [t0|e]; [|done]. unfold UpdateTask.
    destruct (GetTask _ fs); [|done].
    set (tk := set_UpdatedAt _ _).
    pose proof (saveTask_consistent tk fs Hrt Hcons).
    by destruct (saveTask tk fs).
Qed.

Lemma run_app_all_consistent (calls : list (Time * AppCall)) :
  ∀ (s : FileStorage) (fs : FS),
    task_round_trip J → consistent fs →
    consistent (run_app_all calls s fs).2.
Proof.
  induction calls as [|[now c] calls IH]; intros s fs Hrt Hcons; [done|].
  rewrite run_app_all_cons. apply IH; [done|]. by apply run_app_consistent.
Qed.

End ConsistencyFacts.

(** ** What the service maintains *)

Section InvariantFacts.
Import Models OS Storage Spec.
Context {J : JSON}.

(** The three parts of [well_kept]. *)
Ltac split_kept := split; [|split].

Lemma well_kept_mono (b b' : Z) (s : FileStorage) (fs : FS) :
  b ≤ b' → well_kept b s fs → well_kept b' s fs.
Proof. intros Hb (H1 & H2 & H3). split_kept; [done..|lia]. Qed.

Lemma well_kept_fresh : well_kept 0 (mkFileStorage 0) ∅.
Proof.
  split_kept; [apply consistent_empty| |done].
  left. split; [done|]. intros id t (data & Hl & _)%GetTask_lookup.
  by rewrite lookup_empty in Hl.
Qed.

(** [counter_ahead] looks at the counter file and at the records that
    read; a directory with the same counter file and no new record
    inherits it. *)
Lemma counter_ahead_ext (s s' : FileStorage) (fs fs' : FS) :
  fs' !! counterFile = fs !! counterFile →
  (∀ id t, GetTask id fs' = Ok t → ∃ t0, GetTask id fs = Ok t0) →
  nextID s ≤ nextID s' →
  counter_ahead s fs → counter_ahead s' fs'.
Proof.
  intros Hc Hsub Hle [[Hnone Hno]|(data & c & Hl & Hu & Hr & Hlt)].
  - left. split; [congruence|]. intros id t Hget.
    destruct (Hsub _ _ Hget) as [t0 Ht0]. by destruct (Hno id t0).
  - right. exists data, c. split_and!; [congruence|done|lia|lia|].
    intros id t Hget. destruct (Hsub _ _ Hget) as [t0 Ht0]. eauto.
Qed.

(** Saving over a record that reads changes no other record and not the
    counter file. *)
Lemma saveTask_counter_ahead (tk t0 : Task) (s : FileStorage) (fs : FS) :
  GetTask (ID tk) fs = Ok t0 →
  counter_ahead s fs → counter_ahead s (saveTask tk fs).1.
Proof.
  intros Hget0. apply counter_ahead_ext; [| |done].
  - destruct (saveTask tk fs) as [fs' err] eqn:Hs.
    apply saveTask_inv in Hs as [(_ & data & _ & ->)|(_ & ->)]; [|done].
    simpl. apply lookup_insert_ne, getTaskFilename_ne_counter.
  - intros id t Hget. destruct (decide (id = ID tk)) as [->|Hne]; [eauto|].
    rewrite GetTask_saveTask_ne in Hget by done. eauto.
Qed.

Lemma DeleteTask_counter_ahead (id' : Z) (s : FileStorage) (fs : FS) :
  counter_ahead s fs → counter_ahead s (DeleteTask id' fs).1.
Proof.
  destruct (DeleteTask id' fs) as [fs' err] eqn:Hd.
  apply DeleteTask_inv in Hd as [(_ & ->)|(_ & ->)]; [done|]. simpl.
  apply counter_ahead_ext; [| |done].
  - apply lookup_delete_ne, getTaskFilename_ne_counter.
  - intros id t (data & Hl & Hu)%GetTask_lookup.
    apply lookup_delete_Some in Hl as [_ Hl].
    exists t. apply GetTask_lookup. eauto.
Qed.

Lemma Init_well_kept (b : Z) (s : FileStorage) (fs : FS) :
  counter_round_trip J → well_kept b s fs →
  well_kept (b + 1) (Init s fs).1.1 (Init s fs).1.2.
Proof.
  intros Hcrt (Hcons & Hahead & Hb). unfold Init, MkdirAll, ReadFile.
  destruct Hahead as [[Hnone Hno]|(data & c & Hl & Hu & Hr & Hlt)].
  - rewrite Hnone. simpl IsNotExist. cbv iota.
    destruct (saveCounter (mkFileStorage 1) fs) as [fs1 err] eqn:Hs. simpl.
    apply saveCounter_inv in Hs as [(_ & data & Hm & ->)|(_ & ->)].
    + split_kept; [|right|simpl; lia].
      * intros id t Hget. apply (Hcons id t). rewrite <- Hget.
        symmetry. apply GetTask_ext, lookup_insert_ne.
        symmetry. apply getTaskFilename_ne_counter.
      * exists data, 1. rewrite lookup_insert_eq.
        split_and!; [done|by apply Hcrt|done|done|].
        intros id t Hget. destruct (Hno id t). rewrite <- Hget.
        symmetry. apply GetTask_ext, lookup_insert_ne.
        symmetry. apply getTaskFilename_ne_counter.
    + split_kept; [done|left; done|simpl; lia].
  - rewrite Hl, Hu. simpl.
    split_kept; [done|right|simpl; lia].
    exists data, c. split_and!; [done|done|lia|simpl; lia|done].
Qed.

Lemma CreateTask_well_kept (b : Z) (now : Time) (task : Task)
    (s : FileStorage) (fs : FS) :
  task_round_trip J → counter_round_trip J →
  b < Int64.MaxInt64 → well_kept b s fs →
  well_kept (b + 1) (CreateTask now task s fs).1.1.1
                    (CreateTask now task s fs).1.1.2.
Proof.
  intros Hrt Hcrt Hmax (Hcons & Hahead & Hb). unfold CreateTask.
  set (tk := set_UpdatedAt _ _).
  assert (ID tk = nextID s) as Htk by done. clearbody tk.
  rewrite wrap_in_range
    by (unfold Int64.in_range, Int64.MinInt64, Int64.MaxInt64 in *; lia).
  set (s1 := mkFileStorage (nextID s + 1)).
  assert (nextID s1 = nextID s + 1) as Hn1 by done. clearbody s1.
  assert (counter_ahead s1 fs) as Hahead1.
  { revert Hahead. apply counter_ahead_ext; [done|eauto|lia]. }
  destruct (saveCounter s1 fs) as [fs1 [e|]] eqn:Hs.
  { apply saveCounter_inv in Hs as [([=] & _)|(_ & ->)]. simpl.
    split_kept; [done..|lia]. }
  apply saveCounter_inv in Hs as [(_ & cdata & Hm & ->)|([? [=]] & _)].
  set (fs1 := <[counterFile := File cdata]> fs).
  assert (∀ id, GetTask id fs1 = GetTask id fs) as Hsame.
  { intros id. apply GetTask_ext, lookup_insert_ne.
    symmetry. apply getTaskFilename_ne_counter. }
  assert (consistent fs1) as Hcons1.
  { intros id t. rewrite Hsame. apply Hcons. }
  assert (∀ id t, GetTask id fs = Ok t → id < nextID s + 1) as Hlt.
  { intros id t Hget.
    destruct Hahead as [[_ Hno]|(data & c & _ & _ & Hr & Hlt)].
    - by destruct (Hno id t).
    - specialize (Hlt id t Hget). lia. }
  pose proof (saveTask_consistent tk fs1 Hrt Hcons1) as Hcons2.
  destruct (saveTask tk fs1) as [fs2 err] eqn:Hst. simpl in *.
  split_kept; [done| |lia].
  right. exists cdata, (nextID s + 1). rewrite Hn1 in Hm.
  apply saveTask_inv in Hst as [(_ & tdata & Htd & ->)|(_ & ->)].
  - split_and!; [|by apply Hcrt|lia|lia|].
    + rewrite lookup_insert_ne by apply getTaskFilename_ne_counter.
      subst fs1. apply lookup_insert_eq.
    + intros id t Hget. destruct (decide (id = ID tk)) as [->|Hne]; [lia|].
      apply (Hlt id t). rewrite <- Hsame, <- Hget.
      symmetry. apply GetTask_ext, lookup_insert_ne.
      intros ?%getTaskFilename_inj. done.
  - split_and!; [subst fs1; apply lookup_insert_eq|by apply Hcrt|lia|lia|].
    intros id t. rewrite Hsame. apply Hlt.
Qed.

(** Every service call maintains [well_kept], the bound growing by one. *)
Lemma run_app_well_kept (b : Z) (now : Time) (c : AppCall)
    (s : FileStorage) (fs : FS) :
  task_round_trip J → counter_round_trip J →
  b < Int64.MaxInt64 → well_kept b s fs →
  well_kept (b + 1) (run_app now c s fs).1 (run_app now c s fs).2.
Proof.
  intros Hrt Hcrt Hmax Hk.
  assert (well_kept (b + 1) s fs) as Hk1
    by (apply (well_kept_mono b); [lia|done]).
  pose proof Hk1 as (Hcons & Hahead & Hb).
  destruct c; simpl; try done.
  - by apply Init_well_kept.
  - unfold App.CreateTask. case_decide; [done|].
    set (task := mkTask _ _ _ _ _ _ _ _ _).
    pose proof (CreateTask_well_kept b now task s fs Hrt Hcrt Hmax Hk)
      as Hcreate.
    by destruct (CreateTask now task s fs) as [[[s1 fs1] t1] [e|]].
  - split_kept; [by apply DeleteTask_consistent| |done].
    by apply DeleteTask_counter_ahead.
  - unfold App.CompleteTask, CompleteTask.
    destruct (GetTask id fs) as [t0|e] eqn:Hget; [|done].
    pose proof (Hcons _ _ Hget) as Hid.
    split_kept; [by apply saveTask_consistent| |done].
    apply (saveTask_counter_ahead _ t0); [|done]. simpl. by rewrite Hid.
  - unfold App.UpdateTaskProgress. case_decide; [done|].
    unfold UpdateTaskProgress.
    destruct (GetTask id fs) as [t0|e] eqn:Hget; [|done].
    pose proof (Hcons _ _ Hget) as Hid.
    split_kept; [by apply saveTask_consistent| |done].
    apply (saveTask_counter_ahead _ t0); [|done].
    case_decide; simpl; by rewrite Hid.
  - unfold App.UpdateTaskDetails, App.GetTask.
    destruct (GetTask id fs) as [t0|e] eqn:Hget; [|done].
    pose proof (Hcons _ _ Hget) as Hid.
    unfold UpdateTask. simpl. rewrite Hid, Hget.
    set (tk := set_UpdatedAt _ _).
    pose proof (saveTask_consistent tk fs Hrt Hcons) as H1.
    pose proof (saveTask_counter_ahead tk t0 s fs) as H2.
    destruct (saveTask tk fs) as [fs' err]. simpl in *.
    split_kept; [done| |done]. apply H2; [|done]. by rewrite Hid.
Qed.

Lemma run_app_all_well_kept (calls : list (Time * AppCall)) :
  ∀ (b : Z) (s : FileStorage) (fs : FS),
    task_round_trip J → counter_round_trip J →
    b + Z.of_nat (length calls) ≤ Int64.MaxInt64 → well_kept b s fs →
    well_kept (b + Z.of_nat (length calls))
      (run_app_all calls s fs).1 (run_app_all calls s fs).2.
Proof.
  induction calls as [|[now c] calls IH]; intros b s fs Hrt Hcrt Hmax Hk.
  - simpl. by rewrite Z.add_0_r.
  - rewrite run_app_all_cons. simpl length in *.
    replace (b + Z.of_nat (S (length calls)))
      with ((b + 1) + Z.of_nat (length calls)) by lia.
    apply IH; [done|done|lia|].
    apply run_app_well_kept; [done|done|lia|done].
Qed.

(** On a store the service has kept, no service call clears the
    completion flag of a task. *)
Lemma well_kept_keeps_completed (b : Z) (now : Time) (c : AppCall)
    (s : FileStorage) (fs : FS) (id : Z) :
  task_round_trip J → well_kept b s fs →
  keeps_completed (run_app now c) s fs id.
Proof.
  intros Hrt (Hcons & Hahead & Hb) t t' Hget.
  apply (run_app_keeps now c s fs id Hrt Hcons); [|done].
  destruct Hahead as [[_ Hno]|(data & n & _ & _ & Hr & Hlt)].
  - by destruct (Hno id t).
  - specialize (Hlt id t Hget). lia.
Qed.

(** From an empty directory and a new [FileStorage], however many
    service calls were made (short of the largest [int64]), the next one
    clears no completion flag. *)
Lemma service_keeps_completed (calls : list (Time * AppCall)) (now : Time)
    (c : AppCall) (id : Z) :
  task_round_trip J → counter_round_trip J →
  Z.of_nat (length calls) ≤ Int64.MaxInt64 →
  keeps_completed (run_app now c)
    (run_app_all calls (mkFileStorage 0) ∅).1
    (run_app_all calls (mkFileStorage 0) ∅).2 id.
Proof.
  intros Hrt Hcrt Hlen.
  apply (well_kept_keeps_completed (0 + Z.of_nat (length calls))); [done|].
  apply run_app_all_well_kept; [done|done|lia|apply well_kept_fresh].
Qed.

End InvariantFacts.

(** ** The completion flag is kept *)

Section CompletionTheorem.
Import Models OS Storage Spec.
Context {J : JSON}.

(** C10, as the code has it: on a directory whose records are filed
    under their own ids, and with the counter not at the task's id, no
    service call and no store call other than [UpdateTask] (which stores
    the record its caller passes, flag included) turns a completed task
    into one that is not; both conditions hold of every store that
    service calls have built from an empty directory, so there no
    service call ever does.  In particular, for an existing completed
    task the service's [UpdateTaskProgress(id, p)] with [0 <= p < 100]
    succeeds, stores progress [p] and leaves the task completed; and a
    completed task with progress below 100 is reached from an empty
    directory by service calls alone. *)
Theorem C10_completed_is_kept (now : Time) (s : FileStorage) (fs : FS)
    (id : Z) :
  task_round_trip J → counter_round_trip J →
  task_marshal_total J → counter_marshal_total J →
  (consistent fs → nextID s ≠ id →
     (∀ c : AppCall, keeps_completed (run_app now c) s fs id) ∧
     (∀ c : StoreCall, (∀ task, c ≠ SUpdateTask task) →
        keeps_completed (run_store now c) s fs id)) ∧
  (∀ (calls : list (Time * AppCall)) (c : AppCall),
     Z.of_nat (length calls) ≤ Int64.MaxInt64 →
     keeps_completed (run_app now c)
       (run_app_all calls (mkFileStorage 0) ∅).1
       (run_app_all calls (mkFileStorage 0) ∅).2 id) ∧
  (∀ t p, task_exists fs id t → Completed t = true → 0 ≤ p < 100 →
     ∃ fs' t',
       App.UpdateTaskProgress now id p fs = (fs', None) ∧
       GetTask id fs' = Ok t' ∧ Progress t' = p ∧ Completed t' = true) ∧
  (∃ calls t,
     GetTask 1 (run_app_all calls (mkFileStorage 0) ∅).2 = Ok t ∧
     Completed t = true ∧ Progress t < 100).
Proof.
  intros Hrt Hcrt Htt Hct. split_and!.
  - intros Hcons Hne. split.
    + intros c. by apply run_app_keeps.
    + intros c Hc. by apply run_store_keeps.
  - intros calls c Hlen. by apply service_keeps_completed.
  - intros t p Hex Hc Hp. unfold App.UpdateTaskProgress.
    case_decide; [lia|].
    destruct (UpdateTaskProgress_exists now id p fs t Hrt Htt Hex)
      as (fs' & HU & Hg).
    eexists _, _. split_and!; [exact HU|exact Hg|done|].
    simpl. by case_decide.
  - destruct (completed_below_100_reachable Hrt Htt Hct) as (t & Hg & Hc & Hp).
    eexists _, t. split_and!; [exact Hg|done|lia].
Qed.

End CompletionTheorem.

(** ** The properties on concrete stores *)

Section Instances.
Import Models OS Storage Spec Example.

Lemma tuple4_eta {A B C D} (x : A * B * C * D) :
  x = (x.1.1.1, x.1.1.2, x.1.2, x.2).
Proof. by destruct x as [[[??]?]?]. Qed.

Lemma C1_ids_increase_witness :
  ids_increase
    (create_all (J := TextJSON.codec)
       [(1, report); (2, report); (3, report)] (mkFileStorage 1) ∅).2.*1.
Proof.
  apply (C1_ids_increase (J := TextJSON.codec)
           [(1, report); (2, report); (3, report)] (mkFileStorage 1) ∅).
  - unfold Int64.in_range, Int64.MinInt64, Int64.MaxInt64. simpl. lia.
  - unfold Int64.MaxInt64. simpl. lia.
Defined.

(** What two creates return on a store whose counter is the largest
    [int64]: both succeed, and the counter has wrapped for the second. *)
Example creates_at_max :
  (create_all (J := TextJSON.codec) [(1, report); (2, report)] at_max ∅).2
  = [(mkTask 9223372036854775807 "Write report" "" 2030 High false 0 1 1,
      None);
     (mkTask (-9223372036854775808) "Write report" "" 2030 High false 0 2 2,
      None)].
Proof. vm_compute. reflexivity. Qed.

(** With the counter at the largest [int64], two creates succeed and the
    second id is the smallest [int64]: the ids do not increase. *)
Lemma C1_counterexample :
  ¬ creation_as_stated (J := TextJSON.codec)
      [(1, report); (2, report)] at_max ∅.
Proof.
  unfold creation_as_stated. intros H.
  destruct H as [Hinc _].
  { vm_compute. repeat constructor. }
  specialize (Hinc 0%nat 1%nat _ _ eq_refl eq_refl (Nat.lt_0_succ 0)).
  vm_compute in Hinc. discriminate.
Qed.

Lemma C2_progress_and_completion_witness :
  task_exists (J := TextJSON.codec) one_task 1 (record 1 "a" false 40) ∧
  ∃ fs' t',
    CompleteTask (J := TextJSON.codec) 9 1 one_task = (fs', None) ∧
    GetTask 1 fs' = Ok t' ∧ Progress t' = 100 ∧ Completed t' = true.
Proof.
  assert (task_exists (J := TextJSON.codec) one_task 1 (record 1 "a" false 40))
    as Hex by (split; vm_compute; reflexivity).
  split; [exact Hex|].
  destruct (C2_progress_and_completion (J := TextJSON.codec) 9 1 one_task
              (record 1 "a" false 40)
              codec_task_round_trip codec_task_marshal_total Hex)
    as (_ & (fs' & t' & H1 & H2 & H3 & H4 & _) & _).
  exists fs', t'. repeat split; assumption.
Defined.

Lemma C3_service_update_progress_witness :
  (∃ fs' t',
     App.UpdateTaskProgress (J := TextJSON.codec) 9 1 75 one_task
       = (fs', None) ∧
     GetTask 1 fs' = Ok t' ∧ Progress t' = 75) ∧
  (∃ e,
     App.UpdateTaskProgress (J := TextJSON.codec) 9 1 101 one_task
       = (one_task, Some e) ∧
     is_validation e = true ∧
     GetTask 1 one_task = Ok (record 1 "a" false 40)).
Proof.
  assert (task_exists (J := TextJSON.codec) one_task 1 (record 1 "a" false 40))
    as Hex by (split; vm_compute; reflexivity).
  split.
  - apply (C3_service_update_progress (J := TextJSON.codec) 9 1 75 one_task
             (record 1 "a" false 40)
             codec_task_round_trip codec_task_marshal_total Hex). lia.
  - apply (C3_service_update_progress (J := TextJSON.codec) 9 1 101 one_task
             (record 1 "a" false 40)
             codec_task_round_trip codec_task_marshal_total Hex). lia.
Defined.

Lemma three_tasks_canonical : canonical_names three_tasks.
Proof.
  intros name data id Hl Hn. apply task_name_id_spec in Hn.
  apply elem_of_map_to_list in Hl. vm_compute map_to_list in Hl.
  repeat (apply elem_of_cons in Hl as [Hl|Hl]);
    try (by apply elem_of_nil in Hl);
    simplify_eq; vm_compute in Hn; by simplify_eq.
Qed.

(** The scenario of the specification: tasks 3, 1 and 2 are listed as
    1, 2, 3; the counter file, the notes, the record that does not decode
    and the sub-directory are passed over. *)
Example listing_3_1_2 :
  GetAllTasks (J := TextJSON.codec) three_tasks
  = Ok [record 1 "a" false 0; record 2 "b" true 100; record 3 "c" false 0].
Proof. vm_compute. reflexivity. Qed.

Lemma C4_listing_witness :
  canonical_names three_tasks ∧
  ∃ l,
    GetAllTasks (J := TextJSON.codec) three_tasks = Ok l ∧
    Sorted id_le l ∧
    l ≡ₚ omap (named_record (J := TextJSON.codec))
           (map_to_list three_tasks).
Proof.
  split; [exact three_tasks_canonical|].
  destruct (C4_listing (J := TextJSON.codec) three_tasks)
    as (l & H1 & H2 & _ & _ & H3 & _).
  exists l. repeat split; [exact H1|exact H2|exact (H3 three_tasks_canonical)].
Defined.

(** What the listing does with a record filed as [task_07.json]: the
    name is a task name and the record decodes, the listing is empty. *)
Example listing_leading_zero :
  task_name_id "task_07.json" = Some 7 ∧
  omap (named_record (J := TextJSON.codec)) (map_to_list leading_zero)
  = [record 7 "g" false 0] ∧
  GetTask (J := TextJSON.codec) 7 leading_zero = Err (ErrTaskNotFound 7) ∧
  GetAllTasks (J := TextJSON.codec) leading_zero = Ok [].
Proof. vm_compute. repeat split. Qed.

(** A record filed as [task_07.json] decodes and its segment parses, yet
    the listing is empty: the record looked up is [task_7.json]. *)
Lemma C4_counterexample :
  ¬ listing_as_stated (J := TextJSON.codec) leading_zero.
Proof.
  intros (l & Hl & _ & Hp).
  vm_compute in Hl. injection Hl as <-.
  vm_compute in Hp. by apply Permutation_nil_cons in Hp.
Qed.

Lemma C5_counter_advances_before_record_witness :
  let r := CreateTask (J := TextJSON.codec) 9 report (mkFileStorage 1) blocked
  in
  r.2 = Some (ErrWriteTask EISDIR) ∧
  nextID r.1.1.1 = 2 ∧ ID r.1.2 = 1 ∧
  GetTask (J := TextJSON.codec) 1 r.1.1.2 = Err (ErrReadTask EISDIR) ∧
  ∃ data,
    r.1.1.2 !! counterFile = Some (File data) ∧
    unmarshalCounter data = Some 2.
Proof.
  intros r.
  assert (CreateTask (J := TextJSON.codec) 9 report (mkFileStorage 1) blocked
          = (r.1.1.1, r.1.1.2, r.1.2, r.2)) as Hr
    by apply tuple4_eta.
  destruct (C5_counter_advances_before_record (J := TextJSON.codec)
              9 report _ (mkFileStorage 1) _ blocked _ _ Hr)
    as (Hid & Hnext & Hfail & _ & _ & Hblocked).
  assert (r.2 = Some (ErrWriteTask EISDIR)) as Herr.
  { apply Hblocked.
    - exact codec_task_marshal_total.
    - exact codec_counter_marshal_total.
    - intros d. vm_compute. discriminate.
    - exists true. vm_compute. reflexivity. }
  destruct (Hfail EISDIR Herr) as ((data & Hdata & Hfs) & Hsame & d & Hd).
  split; [exact Herr|]. split; [exact Hnext|]. split; [exact Hid|]. split.
  - change (nextID (mkFileStorage 1)) with 1 in *.
    unfold GetTask, ReadFile. rewrite <- Hid, Hsame, Hd. reflexivity.
  - exists data. split.
    + rewrite Hfs. apply lookup_insert_eq.
    + rewrite Hnext in Hdata. by apply codec_counter_round_trip.
Defined.

Lemma C6_create_then_get_witness :
  let r := CreateTask (J := TextJSON.codec) 9 report (mkFileStorage 1) ∅ in
  r.2 = None ∧
  GetTask (J := TextJSON.codec) (ID r.1.2) r.1.1.2 = Ok r.1.2 ∧
  same_supplied_fields r.1.2 report.
Proof.
  intros r.
  assert (r.2 = None) as Hnone by (vm_compute; reflexivity).
  split; [exact Hnone|].
  apply (C6_create_then_get (J := TextJSON.codec) 9 report r.1.2
           (mkFileStorage 1) r.1.1.1 ∅ r.1.1.2 codec_task_round_trip).
  rewrite <- Hnone. apply tuple4_eta.
Defined.

Lemma C7_update_details_witness :
  (∃ fs' t',
     App.UpdateTaskDetails (J := TextJSON.codec) 9 1 "b" "" 2031 Critical
       one_task = (fs', None) ∧
     GetTask 1 fs' = Ok t' ∧
     Title t' = "b" ∧ Description t' = "" ∧ DueDate t' = 2031 ∧
     Priority_ t' = Critical ∧ UpdatedAt t' = 9 ∧
     ID t' = 1 ∧ Completed t' = false ∧ Progress t' = 40 ∧
     CreatedAt t' = 5) ∧
  (∃ e,
     App.UpdateTaskDetails (J := TextJSON.codec) 9 2 "b" "" 2031 Critical
       one_task = (one_task, Some e) ∧
     is_not_found e = true).
Proof.
  assert (task_exists (J := TextJSON.codec) one_task 1 (record 1 "a" false 40))
    as Hex by (split; vm_compute; reflexivity).
  destruct (C7_update_details (J := TextJSON.codec) 9 1 "b" "" 2031 Critical
              one_task codec_task_round_trip codec_task_marshal_total)
    as [Hfound _].
  destruct (C7_update_details (J := TextJSON.codec) 9 2 "b" "" 2031 Critical
              one_task codec_task_round_trip codec_task_marshal_total)
    as [_ Hmissing].
  split.
  - exact (Hfound (record 1 "a" false 40) Hex).
  - apply Hmissing. vm_compute. reflexivity.
Defined.

Lemma C8_delete_witness :
  (∃ fs',
     DeleteTask 1 one_task = (fs', None) ∧
     GetTask (J := TextJSON.codec) 1 fs' = Err (ErrTaskNotFound 1)) ∧
  DeleteTask 2 one_task = (one_task, Some (ErrTaskNotFound 2)) ∧
  GetTask (J := TextJSON.codec) 2 one_task = Err (ErrTaskNotFound 2).
Proof.
  destruct (C8_delete (J := TextJSON.codec) 1 one_task) as (Hget & Hdel & _).
  destruct (C8_delete (J := TextJSON.codec) 2 one_task) as (_ & _ & Hnone & _).
  split; [|apply Hnone; vm_compute; reflexivity].
  eexists. split.
  - apply (Hdel (TextJSON.encode_task (record 1 "a" false 40))).
    vm_compute. reflexivity.
  - apply Hget.
    apply (Hdel (TextJSON.encode_task (record 1 "a" false 40))).
    vm_compute. reflexivity.
Defined.

Lemma C9_fresh_store_witness :
  ∃ s1 fs1 data1,
    Init (J := TextJSON.codec) (mkFileStorage 0) ∅ = (s1, fs1, None) ∧
    nextID s1 = 1 ∧
    ReadFile counterFile fs1 = inr data1 ∧ unmarshalCounter data1 = Some 1 ∧
    ∃ s2 fs2 t1,
      App.CreateTask 7 "Write report" "" 2030 High s1 fs1 = (s2, fs2, Ok t1) ∧
      ID t1 = 1 ∧ Progress t1 = 0 ∧ Completed t1 = false ∧
      ∃ s3 fs3 t2 data3,
        App.CreateTask 8 "Review" "" 0 Low s2 fs2 = (s3, fs3, Ok t2) ∧
        ID t2 = 2 ∧
        ReadFile counterFile fs3 = inr data3 ∧
        unmarshalCounter data3 = Some 3.
Proof.
  apply (C9_fresh_store (J := TextJSON.codec) (mkFileStorage 0) ∅ 7 8
           "Write report" "" "Review" "" 2030 0 High Low
           codec_counter_round_trip codec_counter_marshal_total
           codec_task_marshal_total).
  - reflexivity.
  - intros d. vm_compute. discriminate.
  - intros d. vm_compute. discriminate.
  - discriminate.
  - discriminate.
Defined.

(** The record shown by [view 1] in that scenario: priority [High],
    progress 0, not completed, and the counter file reads 3 after the
    second create. *)
Example fresh_store_scenario :
  let '(s1, fs1, _) := Init (J := TextJSON.codec) (mkFileStorage 0) ∅ in
  let '(s2, fs2, _) := App.CreateTask 7 "Write report" "" 2030 High s1 fs1 in
  let '(s3, fs3, _) := App.CreateTask 8 "Review" "" 0 Low s2 fs2 in
  GetTask 1 fs3
    = Ok (mkTask 1 "Write report" "" 2030 High false 0 7 7) ∧
  Priority_String High = "High" ∧
  fs3 !! counterFile = Some (File "3;") ∧ nextID s3 = 3.
Proof. vm_compute. repeat split. Qed.

Lemma one_done_consistent : consistent (J := TextJSON.codec) one_done.
Proof.
  intros id t (data & Hl & Hu)%GetTask_lookup.
  apply elem_of_map_to_list in Hl. vm_compute map_to_list in Hl.
  repeat (apply elem_of_cons in Hl as [Hl|Hl]);
    try (by apply elem_of_nil in Hl).
  - pose proof (f_equal fst Hl) as Hname.
    change (getTaskFilename id = counterFile) in Hname.
    by apply getTaskFilename_ne_counter in Hname.
  - pose proof (f_equal fst Hl) as Hname. pose proof (f_equal snd Hl) as Hdata.
    change (getTaskFilename id = getTaskFilename 1) in Hname.
    apply getTaskFilename_inj in Hname as ->.
    simpl in Hdata. injection Hdata as ->.
    vm_compute in Hu. by simplify_eq.
Qed.

Lemma C10_completed_is_kept_witness :
  (∀ c : AppCall,
     keeps_completed (J := TextJSON.codec) (run_app 9 c)
       (mkFileStorage 2) one_done 1) ∧
  (∃ fs' t',
     App.UpdateTaskProgress (J := TextJSON.codec) 9 1 50 one_done
       = (fs', None) ∧
     GetTask 1 fs' = Ok t' ∧ Progress t' = 50 ∧ Completed t' = true).
Proof.
  destruct (C10_completed_is_kept (J := TextJSON.codec) 9 (mkFileStorage 2)
              one_done 1 codec_task_round_trip codec_counter_round_trip
              codec_task_marshal_total codec_counter_marshal_total)
    as (Hkeep & _ & Hprog & _).
  split.
  - apply Hkeep; [exact one_done_consistent|discriminate].
  - apply (Hprog (record 1 "a" true 100)).
    + split; vm_compute; reflexivity.
    + reflexivity.
    + lia.
Defined.

(** Why the counter must not be at the task's id: with the counter file
    gone, [Init] starts again from 1 and the next create overwrites the
    record of task 1. *)
Example create_overwrites_after_counter_reset :
  let '(s1, fs1, _) :=
    Init (J := TextJSON.codec) (mkFileStorage 0) counter_removed in
  let '(s2, fs2, _) := App.CreateTask 9 "new" "" 0 Low s1 fs1 in
  GetTask 1 counter_removed = Ok (record 1 "a" true 100) ∧
  nextID s1 = 1 ∧
  GetTask 1 fs2 = Ok (mkTask 1 "new" "" 0 Low false 0 9 9).
Proof. vm_compute. repeat split. Qed.

(** Why the records must be filed under their own ids: a progress update
    saves under the id the record carries, not the one it was asked
    about. *)
Example update_of_misfiled_record :
  GetTask (J := TextJSON.codec) 1 misfiled = Ok (record 1 "a" true 100) ∧
  GetTask (J := TextJSON.codec) 1
    (App.UpdateTaskProgress (J := TextJSON.codec) 9 2 50 misfiled).1
  = Ok (mkTask 1 "x" "" 0 Medium false 50 5 9).
Proof. vm_compute. repeat split. Qed.

(** What the store's [UpdateTask] does with a record that is not
    completed, for the id of a completed task: it stores the record. *)
Example update_clears_completed :
  GetTask (J := TextJSON.codec) 1 one_done = Ok (record 1 "a" true 100) ∧
  (UpdateTask (J := TextJSON.codec) 9 (record 1 "a" false 40) one_done).2
  = None ∧
  GetTask (J := TextJSON.codec) 1
    (UpdateTask (J := TextJSON.codec) 9 (record 1 "a" false 40) one_done).1.1
  = Ok (mkTask 1 "a" "" 0 Medium false 40 5 9).
Proof. vm_compute. repeat split. Qed.

(** The store's [UpdateTask], given a record that is not completed for
    the id of a completed task, stores it: the flag is cleared. *)
Lemma C10_counterexample :
  ¬ completion_as_stated (J := TextJSON.codec) 9 (mkFileStorage 2)
      one_done 1.
Proof.
  intros [Hstore _].
  specialize (Hstore (SUpdateTask (record 1 "a" false 40))
                (record 1 "a" true 100)
                (mkTask 1 "a" "" 0 Medium false 40 5 9)).
  discriminate Hstore; vm_compute; reflexivity.
Qed.

End Instances.

(* ===================================================================== *)
(** * Further properties *)
(* ===================================================================== *)

(** ** Record names and ids *)

Section NameRoundTrip.
Import Models OS Storage Spec.

(** [ParseInt] reads nothing but [z] back from what [%d] printed for
    [z]: it returns [z] when [z] is an [int64] and fails otherwise. *)
Lemma ParseInt_FormatInt_inv (z id : Z) :
  Strconv.ParseInt (Strconv.FormatInt z) = Some id → id = z.
Proof.
  unfold Strconv.FormatInt. destruct z as [|p|p].
  - by intros [= <-].
  - change (pretty (Z.pos p)) with (pretty (N.pos p)).
    pose proof (ParseUint_pretty_N (N.pos p)) as HU.
    destruct (pretty_N_head (N.pos p)) as (c & r & Heq & Hc).
    destruct (digit_not_sign c Hc) as [Hplus Hminus].
    rewrite Heq in *. unfold Strconv.ParseInt. rewrite Hplus, Hminus.
    simpl orb. cbv iota. rewrite HU. simpl negb. simpl andb.
    destruct (_ <=? _)%N; [done|]. by intros [= <-].
  - change (pretty (Z.neg p)) with ("-" +:+ pretty (N.pos p)).
    rewrite string_app_cons, string_app_nil_l. unfold Strconv.ParseInt.
    change (Ascii.eqb "-" "+") with false.
    change (Ascii.eqb "-" "-") with true.
    simpl orb. cbv iota. rewrite ParseUint_pretty_N. simpl negb. simpl andb.
    destruct (_ <? _)%N; [done|]. by intros [= <-].
Qed.

Lemma is_task_name_getTaskFilename_inv (n id : Z) :
  is_task_name (getTaskFilename n) id → id = n.
Proof.
  intros (s & Hs & Hp). unfold getTaskFilename in Hs.
  apply (inj (String.app "task_")) in Hs. apply app_inj_r in Hs. subst s.
  by apply ParseInt_FormatInt_inv.
Qed.

(** X1: the id the listing parses from the name of a record is the id the
    record was written under, for every [int64]; no other id is ever
    parsed from it; two ids never share a name, and no record has the
    name of the counter file, which is not a task name. *)
Theorem X1_record_name_round_trip (id : Z) :
  (Int64.in_range id → task_name_id (getTaskFilename id) = Some id) ∧
  (∀ n, task_name_id (getTaskFilename id) = Some n → n = id) ∧
  (∀ id', getTaskFilename id = getTaskFilename id' → id = id') ∧
  getTaskFilename id ≠ counterFile ∧
  task_name_id counterFile = None.
Proof.
  split_and!.
  - intros Hr. by apply task_name_id_spec, is_task_name_getTaskFilename.
  - intros n Hn%task_name_id_spec. by apply is_task_name_getTaskFilename_inv.
  - apply getTaskFilename_inj.
  - apply getTaskFilename_ne_counter.
  - reflexivity.
Qed.

Lemma is_task_name_counterFile (id : Z) : ¬ is_task_name counterFile id.
Proof. by intros H%task_name_id_spec. Qed.

(** Writing a record under its store name, writing the counter file and
    removing an entry keep the names canonical. *)
Lemma canonical_names_insert_task (n : Z) (data : string) (fs : FS) :
  canonical_names fs →
  canonical_names (<[getTaskFilename n := File data]> fs).
Proof.
  intros Hcan name d id Hl Hn.
  destruct (decide (name = getTaskFilename n)) as [->|Hne].
  - by rewrite (is_task_name_getTaskFilename_inv _ _ Hn).
  - rewrite lookup_insert_ne in Hl by done. by eapply Hcan.
Qed.

Lemma canonical_names_insert_counter (data : string) (fs : FS) :
  canonical_names fs → canonical_names (<[counterFile := File data]> fs).
Proof.
  intros Hcan name d id Hl Hn.
  destruct (decide (name = counterFile)) as [->|Hne].
  - by destruct (is_task_name_counterFile id).
  - rewrite lookup_insert_ne in Hl by done. by eapply Hcan.
Qed.

Lemma canonical_names_delete (name : string) (fs : FS) :
  canonical_names fs → canonical_names (delete name fs).
Proof.
  intros Hcan name' d id Hl Hn.
  apply lookup_delete_Some in Hl as [_ Hl]. by eapply Hcan.
Qed.

Lemma canonical_names_empty : canonical_names ∅.
Proof. intros name d id Hl. by rewrite lookup_empty in Hl. Qed.

End NameRoundTrip.

Section CanonicalFacts.
Import Models OS Storage Spec.
Context {J : JSON}.

Lemma saveTask_canonical (tk : Task) (fs : FS) :
  canonical_names fs → canonical_names (saveTask tk fs).1.
Proof.
  intros Hcan. destruct (saveTask tk fs) as [fs' err] eqn:Hs.
  apply saveTask_inv in Hs as [(_ & data & _ & ->)|(_ & ->)]; [|done].
  by apply canonical_names_insert_task.
Qed.

Lemma saveCounter_canonical (s : FileStorage) (fs : FS) :
  canonical_names fs → canonical_names (saveCounter s fs).1.
Proof.
  intros Hcan. destruct (saveCounter s fs) as [fs' err] eqn:Hs.
  apply saveCounter_inv in Hs as [(_ & data & _ & ->)|(_ & ->)]; [|done].
  by apply canonical_names_insert_counter.
Qed.

(** Every service call keeps the names canonical. *)
Lemma run_app_canonical (now : Time) (c : AppCall) (s : FileStorage)
    (fs : FS) :
  canonical_names fs → canonical_names (run_app now c s fs).2.
Proof.
  intros Hcan. destruct c; simpl; try done.
  - unfold App.Initialize, Init, MkdirAll.
    destruct (ReadFile counterFile fs) as [e|data].
    + destruct (IsNotExist e); [|done].
      pose proof (saveCounter_canonical (mkFileStorage 1) fs Hcan).
      by destruct (saveCounter _ fs).
    + by destruct (unmarshalCounter data).
  - unfold App.CreateTask. case_decide; [done|]. unfold CreateTask.
    set (tk := set_UpdatedAt _ _). set (s1 := mkFileStorage _).
    pose proof (saveCounter_canonical s1 fs Hcan) as H1.
    destruct (saveCounter s1 fs) as [fs1 [e|]]; [done|].
    pose proof (saveTask_canonical tk fs1 H1) as H2.
    by destruct (saveTask tk fs1) as [fs2 [e|]].
  - unfold App.DeleteTask.
    destruct (DeleteTask id fs) as [fs' err] eqn:Hd.
    apply DeleteTask_inv in Hd as [(_ & ->)|(_ & ->)]; [done|].
    by apply canonical_names_delete.
  - unfold App.CompleteTask, CompleteTask.
    destruct (GetTask id fs); [|done]. by apply saveTask_canonical.
  - unfold App.UpdateTaskProgress. case_decide; [done|].
    unfold UpdateTaskProgress.
    destruct (GetTask id fs); [|done]. by apply saveTask_canonical.
  - unfold App.UpdateTaskDetails, App.GetTask.
    destruct (GetTask id fs) as [t0|e]; [|done]. unfold UpdateTask.
    destruct (GetTask _ fs); [|done].
    set (tk := set_UpdatedAt _ _).
    pose proof (saveTask_canonical tk fs Hcan).
    by destruct (saveTask tk fs).
Qed.

Lemma run_app_all_canonical (calls : list (Time * AppCall)) :
  ∀ (s : FileStorage) (fs : FS),
    canonical_names fs → canonical_names (run_app_all calls s fs).2.
Proof.
  induction calls as [|[now c] calls IH]; intros s fs Hcan; [done|].
  rewrite run_app_all_cons. apply IH. by apply run_app_canonical.
Qed.

End CanonicalFacts.

(** ** The listing and the records that read *)

Section ListingMore.
Import Models OS Storage Spec.
Context {J : JSON}.

#[local] Instance id_le_is_total : Total id_le.
Proof. intros a b. unfold id_le. lia. Qed.

(** What [ParseInt] returns is an [int64]. *)
Lemma ParseInt_in_range (s : string) (id : Z) :
  Strconv.ParseInt s = Some id → Int64.in_range id.
Proof.
  unfold Strconv.ParseInt, Int64.in_range, Int64.MinInt64, Int64.MaxInt64.
  destruct s as [|c r]; [done|].
  destruct (Strconv.ParseUint _) as [un|]; [|done].
  destruct (Ascii.eqb c "-"); simpl.
  - destruct (N.ltb_spec (2 ^ 63)%N un); [done|]. intros [= <-]. lia.
  - destruct (N.leb_spec (2 ^ 63)%N un); [done|]. intros [= <-]. lia.
Qed.

Lemma GetAllTasks_sorted_perm (fs : FS) (l : list Task) :
  GetAllTasks fs = Ok l →
  Sorted id_le l ∧ l ≡ₚ omap (listed_record fs) (map_to_list fs).
Proof.
  unfold GetAllTasks, ReadDir, sort_by_ID. intros [= <-].
  rewrite GetAllTasks_loop_omap, app_nil_l. split.
  - apply Sorted_merge_sort. apply _.
  - by rewrite !merge_sort_Permutation.
Qed.

Lemma GetAllTasks_ok (fs : FS) : ∃ l, GetAllTasks fs = Ok l.
Proof. unfold GetAllTasks, ReadDir. by eexists. Qed.

Lemma listed_record_Some (fs : FS) (entry : string * Node) (t : Task) :
  listed_record fs entry = Some t ↔
  ∃ data id,
    entry.2 = File data ∧ is_task_name entry.1 id ∧ GetTask id fs = Ok t.
Proof.
  unfold listed_record. destruct entry as [name [data|d]]; simpl.
  - split.
    + destruct (task_name_id name) as [id|] eqn:Hid; [|done].
      apply task_name_id_spec in Hid.
      destruct (GetTask id fs) as [t'|e] eqn:Hget; [|done].
      intros [= <-]. eauto.
    + intros (data' & id & _ & Hid%task_name_id_spec & Hget).
      by rewrite Hid, Hget.
  - split; [done|]. by intros (? & ? & ? & _).
Qed.

(** Every task that reads under an [int64] id is listed. *)
Lemma GetAllTasks_complete (fs : FS) (l : list Task) (id : Z) (t : Task) :
  GetAllTasks fs = Ok l → Int64.in_range id → GetTask id fs = Ok t → t ∈ l.
Proof.
  intros [_ Hperm]%GetAllTasks_sorted_perm Hr Hget.
  rewrite Hperm. apply list_elem_of_omap.
  pose proof Hget as (data & Hl & _)%GetTask_lookup.
  exists (getTaskFilename id, File data).
  split; [by apply elem_of_map_to_list|].
  apply listed_record_Some. exists data, id.
  split_and!; [done| |done]. by apply is_task_name_getTaskFilename.
Qed.

(** Every task listed reads under some [int64] id. *)
Lemma GetAllTasks_sound (fs : FS) (l : list Task) (t : Task) :
  GetAllTasks fs = Ok l → t ∈ l →
  ∃ id, Int64.in_range id ∧ GetTask id fs = Ok t.
Proof.
  intros [_ Hperm]%GetAllTasks_sorted_perm. rewrite Hperm, list_elem_of_omap.
  intros (entry & _ &
          (data & id & _ & (s & _ & Hp) & Hget)%listed_record_Some).
  exists id. split; [|done]. by eapply ParseInt_in_range.
Qed.

(** X2: the listing holds every task that [GetTask] returns for an
    [int64] id, and nothing else: each task listed is one that [GetTask]
    returns for some [int64] id. *)
Theorem X2_listing_is_what_reads (fs : FS) (l : list Task) :
  GetAllTasks fs = Ok l →
  (∀ id t, Int64.in_range id → GetTask id fs = Ok t → t ∈ l) ∧
  (∀ t, t ∈ l → ∃ id, Int64.in_range id ∧ GetTask id fs = Ok t).
Proof.
  intros Hl. split.
  - intros id t. by apply GetAllTasks_complete.
  - intros t. by apply GetAllTasks_sound.
Qed.

Lemma NoDup_fmap_omap {A B C} (f : A → option B) (g : B → C) (l : list A) :
  NoDup l →
  (∀ x y a b, x ∈ l → y ∈ l → f x = Some a → f y = Some b →
              g a = g b → x = y) →
  NoDup (g <$> omap f l).
Proof.
  induction 1 as [|x l Hx Hnd IH]; intros Hinj; [constructor|]. csimpl.
  assert (NoDup (g <$> omap f l)) as IH'.
  { apply IH. intros ?????????. eapply Hinj; eauto; by right. }
  destruct (f x) as [a|] eqn:Hfx; [|done]. csimpl.
  constructor; [|done].
  intros (b & Hgb & (y & Hy & Hfy)%list_elem_of_omap)%list_elem_of_fmap.
  assert (x = y) as -> by (eapply Hinj; eauto; [left|by right]).
  done.
Qed.

Lemma Sorted_NoDup_strict (l : list Task) :
  Sorted id_le l → NoDup (ID <$> l) →
  StronglySorted (λ a b, ID a < ID b) l.
Proof.
  intros Hs%Sorted_StronglySorted; [|intros a b c; unfold id_le; lia].
  induction Hs as [|a l Hs IH Hall]; intros Hnd; [constructor|].
  csimpl in Hnd. apply NoDup_cons in Hnd as [Hnotin Hnd].
  constructor; [by apply IH|].
  apply Forall_forall. intros b Hb.
  rewrite Forall_forall in Hall. specialize (Hall b Hb). unfold id_le in Hall.
  assert (ID a ≠ ID b); [|lia].
  intros Heq. apply Hnotin. rewrite Heq. apply list_elem_of_fmap. eauto.
Qed.

(** On a directory whose records are filed under their own ids, with the
    names the store writes, the ids listed are distinct. *)
Lemma listing_ids_NoDup (fs : FS) :
  consistent fs → canonical_names fs →
  NoDup (ID <$> omap (listed_record fs) (map_to_list fs)).
Proof.
  intros Hcons Hcan. apply NoDup_fmap_omap; [apply NoDup_map_to_list|].
  intros [n1 e1] [n2 e2] a b H1 H2
    (d1 & id1 & He1 & Hn1 & Hg1)%listed_record_Some
    (d2 & id2 & He2 & Hn2 & Hg2)%listed_record_Some Hab.
  simpl in *. subst e1 e2.
  apply elem_of_map_to_list in H1, H2.
  pose proof (Hcan _ _ _ H1 Hn1) as ->. pose proof (Hcan _ _ _ H2 Hn2) as ->.
  pose proof (Hcons _ _ Hg1). pose proof (Hcons _ _ Hg2).
  assert (id1 = id2) as -> by congruence.
  congruence.
Qed.

(** X3: on a directory whose records are filed under their own ids, with
    the names the store writes, the listing is in strictly increasing
    order of id: no task is listed twice.  Every directory that service
    calls have built from an empty one is such a directory. *)
Theorem X3_listing_strictly_increasing (fs : FS) (l : list Task) :
  GetAllTasks fs = Ok l →
  (consistent fs → canonical_names fs →
   StronglySorted (λ a b, ID a < ID b) l) ∧
  (task_round_trip J →
   ∀ (calls : list (Time * AppCall)) (s : FileStorage),
     fs = (run_app_all calls s ∅).2 →
     StronglySorted (λ a b, ID a < ID b) l).
Proof.
  intros [Hsorted Hperm]%GetAllTasks_sorted_perm.
  assert (consistent fs → canonical_names fs →
          StronglySorted (λ a b, ID a < ID b) l) as Hmain.
  { intros Hcons Hcan. apply Sorted_NoDup_strict; [done|].
    rewrite Hperm. by apply listing_ids_NoDup. }
  split; [done|]. intros Hrt calls s ->. apply Hmain.
  - apply run_app_all_consistent; [done|apply consistent_empty].
  - apply run_app_all_canonical, canonical_names_empty.
Qed.

End ListingMore.

(** ** One call and the other records *)

Section FrameFacts.
Import Models OS Storage Spec.
Context {J : JSON}.

Lemma saveTask_counterFile (tk : Task) (fs : FS) :
  (saveTask tk fs).1 !! counterFile = fs !! counterFile.
Proof.
  destruct (saveTask tk fs) as [fs' err] eqn:Hs.
  apply saveTask_inv in Hs as [(_ & data & _ & ->)|(_ & ->)]; [|done].
  apply lookup_insert_ne, getTaskFilename_ne_counter.
Qed.

Lemma DeleteTask_counterFile (id : Z) (fs : FS) :
  (DeleteTask id fs).1 !! counterFile = fs !! counterFile.
Proof.
  destruct (DeleteTask id fs) as [fs' err] eqn:Hd.
  apply DeleteTask_inv in Hd as [(_ & ->)|(_ & ->)]; [done|].
  apply lookup_delete_ne, getTaskFilename_ne_counter.
Qed.

Lemma GetTask_DeleteTask_ne (id id' : Z) (fs : FS) :
  id' ≠ id → GetTask id' (DeleteTask id fs).1 = GetTask id' fs.
Proof.
  intros Hne. destruct (DeleteTask id fs) as [fs' err] eqn:Hd.
  apply DeleteTask_inv in Hd as [(_ & ->)|(_ & ->)]; [done|].
  apply GetTask_ext, lookup_delete_ne. intros ?%getTaskFilename_inj. done.
Qed.

Lemma App_CreateTask_inv (now : Time) (title desc : string) (dueDate : Time)
    (priority : Priority) (s s' : FileStorage) (fs fs' : FS) (t : Task) :
  App.CreateTask now title desc dueDate priority s fs = (s', fs', Ok t) →
  title ≠ "" ∧
  CreateTask now (mkTask 0 title desc dueDate priority false 0 0 0) s fs
    = (s', fs', t, None).
Proof.
  unfold App.CreateTask. case_decide; [done|].
  destruct (CreateTask _ _ s fs) as [[[s1 fs1] t1] [e|]]; [done|].
  by intros [= -> -> ->].
Qed.

(** The directory after a [CreateTask] that returned no error. *)
Lemma CreateTask_ok_inv (now : Time) (task task' : Task)
    (s s' : FileStorage) (fs fs' : FS) :
  CreateTask now task s fs = (s', fs', task', None) →
  ID task' = nextID s ∧
  ∃ cdata tdata,
    marshalTask task' = Some tdata ∧
    fs' = <[getTaskFilename (nextID s) := File tdata]>
            (<[counterFile := File cdata]> fs).
Proof.
  intros Hc. pose proof (CreateTask_assigns _ _ _ _ _ _ _ _ Hc) as [_ Ht'].
  assert (ID task' = nextID s) as Hid by (by subst task').
  split; [done|]. unfold CreateTask in Hc.
  destruct (saveCounter _ fs) as [fs1 [e|]] eqn:Hsc; [by simplify_eq|].
  apply saveCounter_inv in Hsc as [(_ & cdata & _ & ->)|([? [=]] & _)].
  destruct (saveTask _ _) as [fs2 err] eqn:Hst. simplify_eq.
  apply saveTask_inv in Hst as [(_ & tdata & Htd & ->)|([? [=]] & _)].
  exists cdata, tdata. split; [done|]. by rewrite <- Hid.
Qed.

(** X4: a service call made for task [id] leaves the record of every
    other task and the counter file as they were, on a directory whose
    records are filed under their own ids: this holds of [CompleteTask],
    [UpdateTaskProgress], [UpdateTaskDetails] and [DeleteTask], whether
    they succeed or not. *)
Theorem X4_other_records_untouched (now : Time) (id id' p : Z)
    (title desc : string) (dueDate : Time) (priority : Priority) (fs : FS) :
  consistent fs → id' ≠ id →
  (GetTask id' (App.CompleteTask now id fs).1 = GetTask id' fs ∧
   (App.CompleteTask now id fs).1 !! counterFile = fs !! counterFile) ∧
  (GetTask id' (App.UpdateTaskProgress now id p fs).1 = GetTask id' fs ∧
   (App.UpdateTaskProgress now id p fs).1 !! counterFile
     = fs !! counterFile) ∧
  (GetTask id'
     (App.UpdateTaskDetails now id title desc dueDate priority fs).1
     = GetTask id' fs ∧
   (App.UpdateTaskDetails now id title desc dueDate priority fs).1
     !! counterFile = fs !! counterFile) ∧
  (GetTask id' (App.DeleteTask id fs).1 = GetTask id' fs ∧
   (App.DeleteTask id fs).1 !! counterFile = fs !! counterFile).
Proof.
  intros Hcons Hne. split_and!.
  - unfold App.CompleteTask, CompleteTask.
    destruct (GetTask id fs) as [t0|e] eqn:Hget; [|done].
    apply GetTask_saveTask_ne. simpl. by rewrite (Hcons _ _ Hget).
  - unfold App.CompleteTask, CompleteTask.
    destruct (GetTask id fs) as [t0|e]; [|done]. apply saveTask_counterFile.
  - unfold App.UpdateTaskProgress. case_decide; [done|].
    unfold UpdateTaskProgress.
    destruct (GetTask id fs) as [t0|e] eqn:Hget; [|done].
    apply GetTask_saveTask_ne. pose proof (Hcons _ _ Hget).
    by case_decide; simpl; subst.
  - unfold App.UpdateTaskProgress. case_decide; [done|].
    unfold UpdateTaskProgress.
    destruct (GetTask id fs) as [t0|e]; [|done]. apply saveTask_counterFile.
  - unfold App.UpdateTaskDetails, App.GetTask, UpdateTask.
    destruct (GetTask id fs) as [t0|e] eqn:Hget; [|done].
    simpl. rewrite (Hcons _ _ Hget), Hget.
    set (tk := set_UpdatedAt _ _).
    pose proof (GetTask_saveTask_ne id' tk fs) as Hsave.
    destruct (saveTask tk fs) as [fs' err]. simpl in *.
    apply Hsave. by rewrite (Hcons _ _ Hget).
  - unfold App.UpdateTaskDetails, App.GetTask, UpdateTask.
    destruct (GetTask id fs) as [t0|e] eqn:Hget; [|done].
    simpl. rewrite (Hcons _ _ Hget), Hget.
    set (tk := set_UpdatedAt _ _).
    pose proof (saveTask_counterFile tk fs) as Hsave.
    by destruct (saveTask tk fs) as [fs' err].
  - by apply GetTask_DeleteTask_ne.
  - apply DeleteTask_counterFile.
Qed.

(** X5: after a service [CreateTask] that succeeds on a store whose
    counter is an [int64], the task it returns reads under its id and is
    in the listing, and so is every task that was there under another
    [int64] id. *)
Theorem X5_created_task_is_listed (now : Time) (title desc : string)
    (dueDate : Time) (priority : Priority) (s s' : FileStorage)
    (fs fs' : FS) (t : Task) :
  task_round_trip J → Int64.in_range (nextID s) →
  App.CreateTask now title desc dueDate priority s fs = (s', fs', Ok t) →
  GetTask (ID t) fs' = Ok t ∧
  ∃ l,
    GetAllTasks fs' = Ok l ∧ t ∈ l ∧
    ∀ id t0,
      Int64.in_range id → id ≠ ID t → GetTask id fs = Ok t0 → t0 ∈ l.
Proof.
  intros Hrt Hr [_ Hc]%App_CreateTask_inv.
  pose proof (CreateTask_ok_inv _ _ _ _ _ _ _ Hc)
    as (Hid & cdata & tdata & Htd & ->).
  set (fs2 := <[getTaskFilename (nextID s) := File tdata]>
                (<[counterFile := File cdata]> fs)) in *.
  assert (GetTask (ID t) fs2 = Ok t) as Hget.
  { apply GetTask_lookup. exists tdata. subst fs2.
    rewrite Hid, lookup_insert_eq. split; [done|]. by apply Hrt. }
  split; [done|].
  destruct (GetAllTasks_ok fs2) as [l Hl].
  exists l. split_and!; [done| |].
  - apply (GetAllTasks_complete fs2 l (ID t)); [done| |done]. by rewrite Hid.
  - intros id t0 Hrid Hne Hget0.
    apply (GetAllTasks_complete fs2 l id); [done..|].
    rewrite <- Hget0. apply GetTask_ext. subst fs2.
    rewrite lookup_insert_ne
      by (intros ?%getTaskFilename_inj; congruence).
    apply lookup_insert_ne. symmetry. apply getTaskFilename_ne_counter.
Qed.

(** X6: after a [DeleteTask(id)] that succeeds, on a directory whose
    records are filed under their own ids, no task with that id is in
    the listing, and every task that was there under another [int64] id
    still is. *)
Theorem X6_deleted_task_is_not_listed (id : Z) (fs fs' : FS) :
  consistent fs → App.DeleteTask id fs = (fs', None) →
  ∃ l,
    GetAllTasks fs' = Ok l ∧
    (∀ t, t ∈ l → ID t ≠ id) ∧
    (∀ id' t,
       Int64.in_range id' → id' ≠ id → GetTask id' fs = Ok t → t ∈ l).
Proof.
  intros Hcons Hd. unfold App.DeleteTask in Hd.
  destruct (GetAllTasks_ok fs') as [l Hl]. exists l. split; [done|].
  assert (fs' = (DeleteTask id fs).1) as Hfs' by (by rewrite Hd).
  split.
  - intros t (id' & _ & Hget)%(GetAllTasks_sound fs' l t Hl) Hid.
    assert (ID t = id') as Hid'.
    { apply (DeleteTask_consistent id fs Hcons). by rewrite <- Hfs'. }
    assert (id' = id) as -> by congruence.
    apply DeleteTask_inv in Hd as [([? [=]] & _)|(_ & ->)].
    by rewrite GetTask_not_found in Hget by apply lookup_delete_eq.
  - intros id' t Hr Hne Hget.
    apply (GetAllTasks_complete fs' l id'); [done..|].
    rewrite Hfs'. by rewrite GetTask_DeleteTask_ne.
Qed.

End FrameFacts.

(** ** [Init] *)

Section InitFacts.
Import Models OS Storage Spec.
Context {J : JSON}.

(** X7: after an [Init] that succeeds the counter file decodes to the
    counter in memory, and [Init] again, on this or on a new
    [FileStorage], gives the same counter and leaves the directory as it
    is: a later run of the program goes on from the persisted counter. *)
Theorem X7_Init_recovers_counter (s s1 : FileStorage) (fs fs1 : FS) :
  counter_round_trip J →
  Init s fs = (s1, fs1, None) →
  (∃ data,
     fs1 !! counterFile = Some (File data) ∧
     unmarshalCounter data = Some (nextID s1)) ∧
  ∀ s', Init s' fs1 = (s1, fs1, None).
Proof.
  intros Hcrt HI.
  assert (∃ data, fs1 !! counterFile = Some (File data) ∧
                  unmarshalCounter data = Some (nextID s1)) as Hfile.
  { unfold Init, MkdirAll, ReadFile in HI.
    destruct (fs !! counterFile) as [[data|d]|] eqn:Hl; simpl in HI.
    - destruct (unmarshalCounter data) as [n|] eqn:Hu; simplify_eq. eauto.
    - done.
    - destruct (saveCounter (mkFileStorage 1) fs) as [fs' err] eqn:Hs.
      simplify_eq.
      apply saveCounter_inv in Hs as [(_ & data & Hm & ->)|([? [=]] & _)].
      exists data. rewrite lookup_insert_eq. split; [done|]. by apply Hcrt. }
  split; [done|]. intros s'. destruct Hfile as (data & Hl & Hu).
  unfold Init, MkdirAll, ReadFile. rewrite Hl, Hu. by destruct s1.
Qed.

(** X8: [Init] never changes the record of a task; it writes nothing
    when there is a counter entry, and nothing when it fails.  On a
    counter file that does not decode, and on a directory in the place
    of the counter file, it fails and leaves the counter in memory as it
    was. *)
Theorem X8_Init_frame_and_errors (s s' : FileStorage) (fs fs' : FS)
    (err : option error) :
  Init s fs = (s', fs', err) →
  (∀ id, GetTask id fs' = GetTask id fs) ∧
  (is_Some (fs !! counterFile) → fs' = fs) ∧
  (is_Some err → fs' = fs) ∧
  (∀ data, fs !! counterFile = Some (File data) →
     unmarshalCounter data = None → err = Some ErrParseCounter ∧ s' = s) ∧
  (∀ d, fs !! counterFile = Some (Dir d) →
     err = Some (ErrReadCounter EISDIR) ∧ s' = s).
Proof.
  unfold Init, MkdirAll, ReadFile. intros HI.
  destruct (fs !! counterFile) as [[data|d]|] eqn:Hl; simpl in HI.
  - destruct (unmarshalCounter data) as [n|] eqn:Hu; simplify_eq;
      split_and!; try done; intros data' [= <-] Hu'; congruence.
  - simplify_eq. split_and!; try done.
  - pose proof (GetTask_saveCounter) as Hget.
    destruct (saveCounter (mkFileStorage 1) fs) as [fs1 e] eqn:Hs.
    simplify_eq. split_and!; try done.
    + intros id. specialize (Hget id (mkFileStorage 1) fs).
      by rewrite Hs in Hget.
    + intros He.
      by apply saveCounter_inv in Hs as [(-> & _)|(_ & ->)];
        [destruct He|].
Qed.

End InitFacts.

(** ** Ids over many runs of the program *)

Section IdsNeverReused.
Import Models OS Storage Spec MainGo.
Context {J : JSON}.

Lemma store_above_mono (ids : list Z) (b b' : Z) (s : FileStorage)
    (fs : FS) :
  b ≤ b' → store_above ids b s fs → store_above ids b' s fs.
Proof. intros Hb [Hn H]. split; [lia|done]. Qed.

Lemma StronglySorted_snoc (ids : list Z) (i : Z) :
  StronglySorted Z.lt ids → Forall (λ j, j < i) ids →
  StronglySorted Z.lt (ids ++ [i]).
Proof.
  intros Hs Hall. apply StronglySorted_app. split_and!.
  - intros a b Ha ->%list_elem_of_singleton.
    rewrite Forall_forall in Hall. by apply Hall.
  - done.
  - repeat constructor.
Qed.

(** A call that is neither [Initialize] nor [CreateTask] leaves the
    counter file and the counter in memory as they were. *)
Lemma run_app_counter_untouched (now : Time) (c : AppCall)
    (s : FileStorage) (fs : FS) :
  c ≠ AInitialize → (∀ title desc due prio, c ≠ ACreateTask title desc due prio) →
  (run_app now c s fs).1 = s ∧
  (run_app now c s fs).2 !! counterFile = fs !! counterFile.
Proof.
  intros Hi Hc. destruct c; simpl; try done.
  - by destruct (Hc title desc dueDate priority).
  - split; [done|]. apply DeleteTask_counterFile.
  - split; [done|]. unfold App.CompleteTask, CompleteTask.
    destruct (GetTask id fs); [|done]. apply saveTask_counterFile.
  - split; [done|]. unfold App.UpdateTaskProgress. case_decide; [done|].
    unfold UpdateTaskProgress.
    destruct (GetTask id fs); [|done]. apply saveTask_counterFile.
  - split; [done|]. unfold App.UpdateTaskDetails, App.GetTask, UpdateTask.
    destruct (GetTask id fs) as [t0|e]; [|done]. simpl.
    destruct (GetTask _ fs); [|done].
    set (tk := set_UpdatedAt _ _).
    pose proof (saveTask_counterFile tk fs).
    by destruct (saveTask tk fs).
Qed.

Lemma Init_store_above (ids : list Z) (b : Z) (s : FileStorage) (fs : FS) :
  counter_round_trip J → 0 ≤ b →
  (fs !! counterFile = None ∧ ids = []) ∨
  (∃ data c,
     fs !! counterFile = Some (File data) ∧ unmarshalCounter data = Some c ∧
     0 ≤ c ≤ b ∧ Forall (λ i, i < c) ids) →
  store_above ids (b + 1) (Init s fs).1.1 (Init s fs).1.2 ∧
  ((Init s fs).2 = None ∨ (Init s fs).1.2 = fs).
Proof.
  intros Hcrt Hb Hcase. unfold Init, MkdirAll, ReadFile.
  destruct Hcase as [[Hnone ->]|(data & c & Hl & Hu & Hc & Hall)].
  - rewrite Hnone. simpl IsNotExist. cbv iota.
    destruct (saveCounter (mkFileStorage 1) fs) as [fs1 err] eqn:Hs. simpl.
    apply saveCounter_inv in Hs as [(-> & data & Hm & ->)|(_ & ->)].
    + split; [|by left]. split; [simpl; lia|]. right. exists data, 1.
      rewrite lookup_insert_eq. split_and!; try done. by apply Hcrt.
    + split; [|by right]. split; [simpl; lia|]. by left.
  - rewrite Hl, Hu. simpl. split; [|by left].
    split; [simpl; lia|]. right. exists data, c.
    split_and!; try done; simpl; lia.
Qed.

(** One service call: the ids given out so far stay below the counter,
    and an id given out by this call is above them all. *)
Lemma run_app_store_above (ids : list Z) (b : Z) (now : Time) (c : AppCall)
    (s : FileStorage) (fs : FS) :
  counter_round_trip J → b < Int64.MaxInt64 → store_above ids b s fs →
  store_above (ids ++ option_list (created_id now c s fs)) (b + 1)
    (run_app now c s fs).1 (run_app now c s fs).2 ∧
  ∀ i, created_id now c s fs = Some i → Forall (λ j, j < i) ids.
Proof.
  intros Hcrt Hmax [Hn Hcase].
  assert (∀ c' : AppCall,
            c' ≠ AInitialize →
            (∀ title desc due prio, c' ≠ ACreateTask title desc due prio) →
            created_id now c' s fs = None →
            store_above (ids ++ option_list (created_id now c' s fs)) (b + 1)
              (run_app now c' s fs).1 (run_app now c' s fs).2 ∧
            ∀ i, created_id now c' s fs = Some i → Forall (λ j, j < i) ids)
    as Hother.
  { intros c' Hi Hc ->. simpl. rewrite app_nil_r. split; [|done].
    destruct (run_app_counter_untouched now c' s fs Hi Hc) as [Hs Hf].
    unfold store_above. rewrite Hs, Hf. split; [lia|done]. }
  destruct c; try (by apply Hother).
  { simpl. rewrite app_nil_r. split; [|done].
    unfold App.Initialize.
    apply (Init_store_above ids b s fs Hcrt); [lia|].
    destruct Hcase as [?|(data & n & ? & ? & ? & ?)]; [by left|].
    right. exists data, n. split_and!; try done; lia. }
  simpl. unfold created_id, App.CreateTask. case_decide.
  { simpl. rewrite app_nil_r. split; [|done]. split; [lia|done]. }
  unfold CreateTask. set (tk := set_UpdatedAt _ _).
  assert (ID tk = nextID s) as Htk by done. clearbody tk.
  rewrite wrap_in_range
    by (unfold Int64.in_range, Int64.MinInt64, Int64.MaxInt64 in *; lia).
  assert (Forall (λ j, j < nextID s) ids) as Hbelow.
  { destruct Hcase as [[_ ->]|(data & n & _ & _ & Hr & Hall)]; [done|].
    eapply Forall_impl; [exact Hall|]. simpl. lia. }
  destruct (saveCounter _ fs) as [fs1 [e|]] eqn:Hsc.
  { apply saveCounter_inv in Hsc as [([=] & _)|(_ & ->)]. simpl.
    rewrite app_nil_r. split; [|done]. split; [simpl; lia|].
    destruct Hcase as [?|(data & n & ? & ? & ? & ?)]; [by left|].
    right. exists data, n. split_and!; try done; simpl; lia. }
  apply saveCounter_inv in Hsc as [(_ & cdata & Hm & ->)|([? [=]] & _)].
  simpl in Hm.
  destruct (saveTask tk _) as [fs2 err] eqn:Hst.
  pose proof (saveTask_counterFile tk (<[counterFile := File cdata]> fs))
    as Hcf.
  rewrite Hst, lookup_insert_eq in Hcf. simpl in Hcf.
  assert (unmarshalCounter cdata = Some (nextID s + 1)) as Hu
    by (by apply Hcrt).
  destruct err as [e|]; simpl.
  - rewrite app_nil_r. split; [|done]. split; [simpl; lia|].
    right. exists cdata, (nextID s + 1). split_and!; try done; try (simpl; lia).
    eapply Forall_impl; [exact Hbelow|]. simpl. lia.
  - split.
    + split; [simpl; lia|]. right. exists cdata, (nextID s + 1).
      split_and!; try done; try (simpl; lia).
      apply Forall_app. split.
      * eapply Forall_impl; [exact Hbelow|]. simpl. lia.
      * repeat constructor. lia.
    + intros i [= <-]. by rewrite Htk.
Qed.

Lemma run_app_all_store_above (calls : list (Time * AppCall)) :
  ∀ (ids : list Z) (b : Z) (s : FileStorage) (fs : FS),
    counter_round_trip J →
    b + Z.of_nat (length calls) ≤ Int64.MaxInt64 →
    store_above ids b s fs → StronglySorted Z.lt ids →
    store_above (ids ++ run_app_created calls s fs)
      (b + Z.of_nat (length calls))
      (run_app_all calls s fs).1 (run_app_all calls s fs).2 ∧
    StronglySorted Z.lt (ids ++ run_app_created calls s fs).
Proof.
  induction calls as [|[now c] calls IH]; intros ids b s fs Hcrt Hmax Hab Hs.
  - simpl. by rewrite app_nil_r, Z.add_0_r.
  - rewrite run_app_all_cons. simpl run_app_created. simpl length in *.
    destruct (run_app_store_above ids b now c s fs Hcrt) as [Hab' Hnew];
      [lia|done|].
    rewrite app_assoc.
    replace (b + Z.of_nat (S (length calls)))
      with ((b + 1) + Z.of_nat (length calls)) by lia.
    apply IH; [done|lia|done|].
    destruct (created_id now c s fs) as [i|]; simpl.
    + apply StronglySorted_snoc; [done|]. by apply Hnew.
    + by rewrite app_nil_r.
Qed.

Lemma invocation_counter_above (calls : list (Time * AppCall))
    (ids : list Z) (b : Z) (fs : FS) :
  counter_round_trip J →
  b + 1 + Z.of_nat (length calls) ≤ Int64.MaxInt64 →
  counter_above ids b fs → StronglySorted Z.lt ids →
  counter_above (ids ++ (invocation calls fs).2)
    (b + 1 + Z.of_nat (length calls)) (invocation calls fs).1 ∧
  StronglySorted Z.lt (ids ++ (invocation calls fs).2).
Proof.
  intros Hcrt Hmax [Hb Hcase] Hs. unfold invocation, NewFileStorage, MkdirAll.
  destruct (Init_store_above ids b (mkFileStorage 0) fs Hcrt Hb Hcase)
    as [Hab Herr].
  destruct (Init (mkFileStorage 0) fs) as [[s1 fs1] [e|]]; simpl in *.
  - destruct Herr as [[=]| ->]. rewrite app_nil_r. split; [|done].
    split; [lia|].
    destruct Hcase as [?|(data & n & ? & ? & ? & ?)]; [by left|].
    right. exists data, n. split_and!; try done; lia.
  - destruct (run_app_all_store_above calls ids (b + 1) s1 fs1 Hcrt)
      as [[Hn Hcase'] Hs']; [lia|done|done|].
    split; [|done]. split; [lia|].
    destruct Hcase' as [?|(data & n & ? & ? & ? & ?)]; [by left|].
    right. exists data, n. split_and!; try done; lia.
Qed.

Lemma invocations_counter_above (runs : list (list (Time * AppCall))) :
  ∀ (ids : list Z) (b : Z) (fs : FS),
    counter_round_trip J →
    b + steps runs ≤ Int64.MaxInt64 →
    counter_above ids b fs → StronglySorted Z.lt ids →
    StronglySorted Z.lt (ids ++ (invocations runs fs).2).
Proof.
  unfold steps.
  induction runs as [|calls runs IH]; intros ids b fs Hcrt Hmax Hab Hs.
  - simpl. by rewrite app_nil_r.
  - simpl in *. rewrite length_app in Hmax.
    destruct (invocation_counter_above calls ids b fs Hcrt) as [Hab' Hs'];
      [lia|done|done|].
    destruct (invocation calls fs) as [fs1 ids1]. simpl in *.
    specialize (IH (ids ++ ids1) (b + 1 + Z.of_nat (length calls)) fs1 Hcrt).
    destruct (invocations runs fs1) as [fs2 ids2]. simpl in *.
    rewrite app_assoc. apply IH; [lia|done|done].
Qed.

(** X9: over any number of runs of the program on a directory that was
    empty at first, whatever their service calls (deletions and
    re-initialisations included), the ids of the tasks created are
    strictly increasing: no id is given out twice.  The runs and calls
    together stay below the largest [int64]. *)
Theorem X9_ids_never_reused (runs : list (list (Time * AppCall))) :
  counter_round_trip J →
  steps runs ≤ Int64.MaxInt64 →
  StronglySorted Z.lt (invocations runs ∅).2.
Proof.
  intros Hcrt Hmax.
  apply (invocations_counter_above runs [] 0 ∅ Hcrt); [lia| |constructor].
  split; [done|]. by left.
Qed.

End IdsNeverReused.

(** ** Progress under the service *)

Section ProgressInvariant.
Import Models OS Storage Spec Records.
Context {J : JSON}.

Lemma saveTask_all_tasks (P : Task → Prop) (tk : Task) (fs : FS) :
  task_round_trip J → P tk → all_tasks P fs →
  all_tasks P (saveTask tk fs).1.
Proof.
  intros Hrt Htk Hall id t Hget.
  destruct (decide (id = ID tk)) as [->|Hne].
  - destruct (saveTask tk fs) as [fs' [e|]] eqn:Hs.
    + apply saveTask_inv in Hs as [([=] & _)|(_ & ->)]. by eapply Hall.
    + simpl in Hget. rewrite (GetTask_saveTask _ _ _ Hrt Hs) in Hget.
      by simplify_eq.
  - rewrite GetTask_saveTask_ne in Hget by done. by eapply Hall.
Qed.

Lemma saveCounter_all_tasks (P : Task → Prop) (s : FileStorage) (fs : FS) :
  all_tasks P fs → all_tasks P (saveCounter s fs).1.
Proof. intros Hall id t. rewrite GetTask_saveCounter. apply Hall. Qed.

Lemma DeleteTask_all_tasks (P : Task → Prop) (id : Z) (fs : FS) :
  all_tasks P fs → all_tasks P (DeleteTask id fs).1.
Proof.
  intros Hall id' t Hget.
  destruct (DeleteTask id fs) as [fs' err] eqn:Hd.
  apply DeleteTask_inv in Hd as [(_ & ->)|(_ & ->)]; [by eapply Hall|].
  simpl in Hget. apply GetTask_lookup in Hget as (data & Hl & Hu).
  apply lookup_delete_Some in Hl as [_ Hl].
  apply (Hall id'), GetTask_lookup. eauto.
Qed.

Lemma all_tasks_empty (P : Task → Prop) : all_tasks P ∅.
Proof.
  intros id t (data & Hl & _)%GetTask_lookup. by rewrite lookup_empty in Hl.
Qed.

Lemma run_app_progress_ok (now : Time) (c : AppCall) (s : FileStorage)
    (fs : FS) :
  task_round_trip J →
  all_tasks progress_ok fs → all_tasks progress_ok (run_app now c s fs).2.
Proof.
  intros Hrt Hall. destruct c; simpl; try done.
  - unfold App.Initialize, Init, MkdirAll.
    destruct (ReadFile counterFile fs) as [e|data].
    + destruct (IsNotExist e); [|done].
      pose proof (saveCounter_all_tasks progress_ok (mkFileStorage 1) fs Hall).
      by destruct (saveCounter _ fs).
    + by destruct (unmarshalCounter data).
  - unfold App.CreateTask. case_decide; [done|]. unfold CreateTask.
    set (tk := set_UpdatedAt _ _). set (s1 := mkFileStorage _).
    pose proof (saveCounter_all_tasks progress_ok s1 fs Hall) as H1.
    destruct (saveCounter s1 fs) as [fs1 [e|]]; [done|].
    assert (progress_ok tk) as Htk by (split; simpl; [lia|done]).
    pose proof (saveTask_all_tasks progress_ok tk fs1 Hrt Htk H1) as H2.
    by destruct (saveTask tk fs1) as [fs2 [e|]].
  - by apply DeleteTask_all_tasks.
  - unfold App.CompleteTask, CompleteTask.
    destruct (GetTask id fs); [|done].
    apply saveTask_all_tasks; [done| |done]. split; simpl; [lia|done].
  - unfold App.UpdateTaskProgress. case_decide as Hp; [done|].
    unfold UpdateTaskProgress.
    destruct (GetTask id fs); [|done].
    apply saveTask_all_tasks; [done| |done].
    case_decide; split; simpl; try lia; try done.
  - unfold App.UpdateTaskDetails, App.GetTask.
    destruct (GetTask id fs) as [t0|e] eqn:Hget; [|done]. unfold UpdateTask.
    pose proof (Hall _ _ Hget) as Ht0. clear Hget.
    destruct (GetTask _ fs); [|done].
    set (tk := set_UpdatedAt _ _).
    assert (progress_ok tk) as Htk by exact Ht0.
    pose proof (saveTask_all_tasks progress_ok tk fs Hrt Htk Hall).
    by destruct (saveTask tk fs).
Qed.

(** X10: every service call keeps the progress of every record within
    0 to 100 and every record at 100 completed; so it is in any
    directory that service calls have built from an empty one. *)
Theorem X10_service_keeps_progress_ok :
  task_round_trip J →
  (∀ now c s fs,
     all_tasks progress_ok fs →
     all_tasks progress_ok (run_app now c s fs).2) ∧
  (∀ calls s, all_tasks progress_ok (run_app_all calls s ∅).2).
Proof.
  intros Hrt. split.
  - intros now c s fs. by apply run_app_progress_ok.
  - intros calls.
    assert (∀ s fs, all_tasks progress_ok fs →
                    all_tasks progress_ok (run_app_all calls s fs).2) as H.
    { induction calls as [|[now c] calls IH]; intros s fs Hall; [done|].
      rewrite run_app_all_cons. apply IH. by apply run_app_progress_ok. }
    intros s. apply H, all_tasks_empty.
Qed.

End ProgressInvariant.

(** ** The status of a task and the titles in a table *)

Section DisplayFacts.
Import Models TaskGo CliGo.

Lemma in_progress_ne_overdue (p : string) :
  "In Progress (" +:+ p +:+ "%)" ≠ "Overdue".
Proof. intros Heq. rewrite !string_app_cons in Heq. discriminate. Qed.

Lemma in_progress_ne_completed (p : string) :
  "In Progress (" +:+ p +:+ "%)" ≠ "Completed".
Proof. intros Heq. rewrite !string_app_cons in Heq. discriminate. Qed.

(** X11: [Status] is "Completed" exactly for a completed task and
    "Overdue" exactly for a task that is not completed, has a due date
    and is past it; every other task is in progress, with its
    percentage.  So a completed task is never overdue, nor is a task
    without a due date. *)
Theorem X11_Status_cases (now : Time) (t : Task) :
  (Status now t = "Completed" ↔ Completed t = true) ∧
  (Status now t = "Overdue" ↔
   Completed t = false ∧ DueDate t ≠ 0 ∧ DueDate t < now) ∧
  (Status now t ≠ "Completed" → Status now t ≠ "Overdue" →
   Status now t
   = "In Progress (" +:+ Strconv.FormatInt (Progress t) +:+ "%)").
Proof.
  unfold Status, IsZero, After.
  destruct (Completed t).
  - split; [done|]. split; [|done]. split; [done|]. by intros (? & _).
  - repeat case_bool_decide; (split; [split|split; [split|]]); try done;
      try (intros (_ & ? & ?); done || lia);
      try (intros Heq; exfalso; revert Heq;
           apply in_progress_ne_overdue || apply in_progress_ne_completed).
Qed.

Lemma length_substring_0 (n : nat) (s : string) :
  (n ≤ String.length s)%nat → String.length (String.substring 0 n s) = n.
Proof.
  revert s. induction n as [|n IH]; intros s Hn.
  - by destruct s.
  - destruct s as [|c s]; simpl in *; [lia|]. rewrite IH; [done|lia].
Qed.

(** X12: for a width of at least 3, [truncateString] returns a text of at
    most that many bytes: the text itself when it fits, and otherwise its
    first [maxLen - 3] bytes followed by three dots, exactly [maxLen]
    bytes.  It fails (the slice bound is negative) exactly when the width
    is below 3 and the text does not fit. *)
Theorem X12_truncateString_bounds (s : string) (maxLen : Z) :
  (3 ≤ maxLen →
   ∃ r,
     truncateString s maxLen = Some r ∧
     Z.of_nat (String.length r) ≤ maxLen ∧
     (Z.of_nat (String.length s) ≤ maxLen → r = s) ∧
     (maxLen < Z.of_nat (String.length s) →
      Z.of_nat (String.length r) = maxLen ∧
      r = String.substring 0 (Z.to_nat (maxLen - 3)) s +:+ "...")) ∧
  (truncateString s maxLen = None ↔
   maxLen < 3 ∧ maxLen < Z.of_nat (String.length s)).
Proof.
  unfold truncateString. split.
  - intros Hmax. case_decide as Hfit.
    + exists s. split_and!; [done..|lia].
    + case_decide; [lia|]. eexists. split; [done|].
      assert (Z.of_nat
                (String.length
                   (String.substring 0 (Z.to_nat (maxLen - 3)) s +:+ "..."))
              = maxLen) as Hlen.
      { rewrite string_length_app, length_substring_0 by lia. simpl. lia. }
      split_and!; [lia|lia|done].
  - repeat case_decide; split; try done; try lia.
Qed.

End DisplayFacts.

(** ** The commands that change a task *)

Section CommandFacts.
Import Models OS Storage Spec CliGo.
Context {J : JSON}.

(** A progress update that succeeds has read a record and saved the new
    one under the id that record carries. *)
Lemma UpdateTaskProgress_inv (now : Time) (id p : Z) (fs fs' : FS) :
  UpdateTaskProgress now id p fs = (fs', None) →
  ∃ t0,
    GetTask id fs = Ok t0 ∧
    saveTask
      (mkTask (ID t0) (Title t0) (Description t0) (DueDate t0) (Priority_ t0)
         (if decide (p = 100) then true else Completed t0) p
         (CreatedAt t0) now) fs = (fs', None).
Proof.
  unfold UpdateTaskProgress. intros Hu.
  destruct (GetTask id fs) as [t0|e]; [|simplify_eq].
  exists t0. split; [done|]. rewrite <- Hu. f_equal. by case_decide.
Qed.

(** X13: the [progress] command changes the directory only when it returns
    no error: on any error the directory is as before and nothing is
    printed.  When it returns no error its two first arguments are an id
    and a progress within [0, 100], the record of that id decoded before
    the call, one line is printed, and afterwards the record read under
    the id that record carried has the new progress, is completed exactly
    when the progress is 100 or it was so already, and is otherwise as
    before but for its update time; every other record reads as
    before. *)
Theorem X13_progress_command_all_or_nothing (now : Time) (args : list string)
    (fs fs' : FS) (out : list string) (err : option cli_error) :
  task_round_trip J →
  updateProgress now args fs = (fs', out, err) →
  (is_Some err → fs' = fs ∧ out = []) ∧
  (err = None →
   ∃ idArg progressArg rest id p t0,
     args = idArg :: progressArg :: rest ∧
     Strconv.ParseInt idArg = Some id ∧ Atoi progressArg = Some p ∧
     0 ≤ p ≤ 100 ∧
     GetTask id fs = Ok t0 ∧
     GetTask (ID t0) fs' =
       Ok (mkTask (ID t0) (Title t0) (Description t0) (DueDate t0)
             (Priority_ t0)
             (if decide (p = 100) then true else Completed t0) p
             (CreatedAt t0) now) ∧
     (∀ id', id' ≠ ID t0 → GetTask id' fs' = GetTask id' fs) ∧
     length out = 1%nat).
Proof.
  intros Hrt. unfold updateProgress. intros Hrun.
  destruct args as [|idArg [|progressArg rest]];
    [simplify_eq; split; [done|intros [=]]..|].
  destruct (Strconv.ParseInt idArg) as [id|] eqn:Hid;
    [|simplify_eq; split; [done|intros [=]]].
  destruct (Atoi progressArg) as [p|] eqn:Hp;
    [|simplify_eq; split; [done|intros [=]]].
  case_decide as Hrange; [simplify_eq; split; [done|intros [=]]|].
  unfold App.UpdateTaskProgress in Hrun. case_decide; [done|].
  destruct (UpdateTaskProgress now id p fs) as [fs1 [e|]] eqn:Hu.
  - simplify_eq. split; [|intros [=]]. intros _. split; [|done].
    unfold UpdateTaskProgress in Hu.
    destruct (GetTask id fs) as [t0|e0]; [|by simplify_eq].
    match type of Hu with saveTask ?t _ = _ =>
      destruct (saveTask_inv t _ _ _ Hu) as [([=] & _)|(_ & ->)] end.
    done.
  - simplify_eq. split; [by intros [? [=]]|]. intros _.
    apply UpdateTaskProgress_inv in Hu as (t0 & Hget & Hsave).
    exists idArg, progressArg, rest, id, p, t0.
    split_and!; try done; try lia.
    + by apply (GetTask_saveTask _ _ _ Hrt) in Hsave.
    + intros id' Hne.
      match type of Hsave with saveTask ?t _ = _ =>
        pose proof (GetTask_saveTask_ne id' t fs Hne) as Hframe end.
      by rewrite Hsave in Hframe.
Qed.

(** X14: the [delete] command removes a record only after an answer that
    lower-cases to "y" or "yes", and only the record of a task that
    decodes: it either leaves the directory as it was, or its first
    argument is an id whose record decoded, the answer was one of the
    two, no error is returned, and the directory is the old one without
    that one entry, so the task is not found afterwards.  With another
    answer, with a record that does not decode, or on any error, the
    directory is as before. *)
Theorem X14_delete_command_needs_yes (ToLower : string → string)
    (confirm : string) (args : list string) (fs fs' : FS)
    (out : list string) (err : option cli_error) :
  deleteTask ToLower confirm args fs = (fs', out, err) →
  (fs' = fs ∨
   ∃ idArg rest id t,
     args = idArg :: rest ∧ Strconv.ParseInt idArg = Some id ∧
     GetTask id fs = Ok t ∧
     (ToLower confirm = "y" ∨ ToLower confirm = "yes") ∧
     err = None ∧
     fs' = delete (getTaskFilename id) fs ∧
     GetTask id fs' = Err (ErrTaskNotFound id)) ∧
  (ToLower confirm ≠ "y" → ToLower confirm ≠ "yes" → fs' = fs) ∧
  (is_Some err → fs' = fs) ∧
  (∀ idArg rest id e,
     args = idArg :: rest → Strconv.ParseInt idArg = Some id →
     GetTask id fs = Err e → fs' = fs ∧ err = Some (CliGetTask e)).
Proof.
  unfold deleteTask, App.GetTask, App.DeleteTask. intros Hrun.
  destruct args as [|idArg rest].
  { simplify_eq. split_and!; eauto. intros; simplify_eq. }
  destruct (Strconv.ParseInt idArg) as [id|] eqn:Hid.
  2:{ simplify_eq. split_and!; eauto. intros; simplify_eq. }
  destruct (GetTask id fs) as [t|e] eqn:Hget.
  2:{ simplify_eq. split_and!; eauto. intros; simplify_eq.
      split; congruence. }
  destruct (String.eqb (ToLower confirm) "y") eqn:Hy;
    [apply String.eqb_eq in Hy|apply String.eqb_neq in Hy];
    (destruct (String.eqb (ToLower confirm) "yes") eqn:Hyes;
     [apply String.eqb_eq in Hyes|apply String.eqb_neq in Hyes]);
    simpl in Hrun.
  4:{ simplify_eq. split_and!; eauto. intros; simplify_eq. congruence. }
  all: destruct (DeleteTask id fs) as [fs1 [e|]] eqn:Hdel;
    apply DeleteTask_inv in Hdel as [([e' He'] & Hfs)|(Hnone & Hfs)];
    simplify_eq.
  all: split_and!; eauto; try (intros; simplify_eq; congruence).
  all: try by intros [? [=]].
  all: right; exists idArg, rest, id, t; split_and!; eauto.
  all: apply GetTask_not_found; by rewrite lookup_delete_eq.
Qed.

End CommandFacts.

(** ** Completing a task and setting its progress to 100 *)

Section CompleteIsProgress100.
Import Models OS Storage Spec CliGo.
Context {J : JSON}.

(** X15: [CompleteTask(id)] is [UpdateTaskProgress(id, 100)]: at the
    same time and on the same directory the two leave the same directory
    and return the same error, in the store and in the service; the
    fields are assigned in another order, the record saved is the same.
    So the command [complete <id>] leaves the directory that
    [progress <id> 100] leaves, and fails exactly when that one does. *)
Theorem X15_CompleteTask_is_progress_100 (now : Time) (id : Z) (fs : FS)
    (idArg : string) (rest : list string) :
  CompleteTask now id fs = UpdateTaskProgress now id 100 fs ∧
  App.CompleteTask now id fs = App.UpdateTaskProgress now id 100 fs ∧
  (completeTask now (idArg :: rest) fs).1.1
    = (updateProgress now [idArg; "100"] fs).1.1 ∧
  ((completeTask now (idArg :: rest) fs).2 = None ↔
   (updateProgress now [idArg; "100"] fs).2 = None).
Proof.
  assert (∀ id, CompleteTask now id fs = UpdateTaskProgress now id 100 fs)
    as Hstore.
  { intros id0. unfold CompleteTask, UpdateTaskProgress.
    destruct (GetTask id0 fs) as [t|e]; [|done]. by case_decide. }
  assert (∀ id,
            App.CompleteTask now id fs = App.UpdateTaskProgress now id 100 fs)
    as Happ.
  { intros id0. unfold App.CompleteTask, App.UpdateTaskProgress.
    case_decide; [lia|apply Hstore]. }
  split; [apply Hstore|]. split; [apply Happ|].
  unfold completeTask, updateProgress.
  assert (Atoi "100" = Some 100) as -> by (vm_compute; reflexivity).
  destruct (Strconv.ParseInt idArg) as [n|]; [|done].
  case_decide; [lia|]. rewrite <- Happ.
  by destruct (App.CompleteTask now n fs) as [fs1 [e|]].
Qed.

End CompleteIsProgress100.

(** ** Instances of the further properties *)

Section MoreInstances.
Import Models OS Storage Spec Example TaskGo CliGo MainGo Records.

Lemma tuple3_eta {A B C} (x : A * B * C) : x = (x.1.1, x.1.2, x.2).
Proof. by destruct x as [[??]?]. Qed.

(** Two tasks made by the service on an empty directory. *)
Lemma two_created_consistent :
  consistent (J := TextJSON.codec)
    (run_app_all (J := TextJSON.codec)
       [(1, ACreateTask "a" "" 0 Low); (2, ACreateTask "b" "" 0 High)]
       (mkFileStorage 1) ∅).2.
Proof.
  apply run_app_all_consistent;
    [exact codec_task_round_trip|apply consistent_empty].
Qed.

Lemma X1_record_name_round_trip_witness :
  task_name_id (getTaskFilename 7) = Some 7 ∧
  getTaskFilename 7 ≠ counterFile.
Proof.
  destruct (X1_record_name_round_trip 7) as (Hback & _ & _ & Hne & _).
  split; [|exact Hne].
  apply Hback. unfold Int64.in_range, Int64.MinInt64, Int64.MaxInt64. lia.
Defined.

Lemma X2_listing_is_what_reads_witness :
  (∀ id t,
     Int64.in_range id → GetTask (J := TextJSON.codec) id three_tasks = Ok t →
     t ∈ [record 1 "a" false 0; record 2 "b" true 100;
          record 3 "c" false 0]) ∧
  (∀ t,
     t ∈ [record 1 "a" false 0; record 2 "b" true 100;
          record 3 "c" false 0] →
     ∃ id, Int64.in_range id ∧
           GetTask (J := TextJSON.codec) id three_tasks = Ok t).
Proof.
  apply (X2_listing_is_what_reads (J := TextJSON.codec) three_tasks).
  vm_compute. reflexivity.
Defined.

Lemma X3_listing_strictly_increasing_witness :
  StronglySorted (λ a b, ID a < ID b)
    [mkTask 1 "a" "" 0 Low false 0 1 1; mkTask 2 "b" "" 0 High false 0 2 2].
Proof.
  destruct (X3_listing_strictly_increasing (J := TextJSON.codec)
              (run_app_all (J := TextJSON.codec)
                 [(1, ACreateTask "a" "" 0 Low);
                  (2, ACreateTask "b" "" 0 High)]
                 (mkFileStorage 1) ∅).2
              [mkTask 1 "a" "" 0 Low false 0 1 1;
               mkTask 2 "b" "" 0 High false 0 2 2])
    as [Hfiled _].
  - vm_compute. reflexivity.
  - apply Hfiled.
    + exact two_created_consistent.
    + apply run_app_all_canonical, canonical_names_empty.
Defined.

Lemma X4_other_records_untouched_witness :
  let fs :=
    (run_app_all (J := TextJSON.codec)
       [(1, ACreateTask "a" "" 0 Low); (2, ACreateTask "b" "" 0 High)]
       (mkFileStorage 1) ∅).2 in
  GetTask (J := TextJSON.codec) 1 (App.CompleteTask 9 2 fs).1
    = GetTask 1 fs ∧
  GetTask (J := TextJSON.codec) 1 (App.DeleteTask 2 fs).1 = GetTask 1 fs ∧
  (App.DeleteTask 2 fs).1 !! counterFile
    = fs !! counterFile.
Proof.
  intros fs.
  destruct (X4_other_records_untouched (J := TextJSON.codec) 9 2 1 50
              "t" "" 0 Low fs two_created_consistent)
    as ((Hc & _) & _ & _ & Hd & Hdc); [lia|].
  split; [exact Hc|]. split; [exact Hd|exact Hdc].
Defined.

Lemma X5_created_task_is_listed_witness :
  let r := App.CreateTask (J := TextJSON.codec) 9 "new" "" 0 Low
             (mkFileStorage 2) one_task in
  r.2 = Ok (mkTask 2 "new" "" 0 Low false 0 9 9) ∧
  ∃ l,
    GetAllTasks (J := TextJSON.codec) r.1.2 = Ok l ∧
    mkTask 2 "new" "" 0 Low false 0 9 9 ∈ l ∧
    record 1 "a" false 40 ∈ l.
Proof.
  intros r.
  assert (r.2 = Ok (mkTask 2 "new" "" 0 Low false 0 9 9)) as Hok
    by (vm_compute; reflexivity).
  split; [exact Hok|].
  destruct (X5_created_task_is_listed (J := TextJSON.codec) 9 "new" "" 0 Low
              (mkFileStorage 2) r.1.1 one_task r.1.2
              (mkTask 2 "new" "" 0 Low false 0 9 9) codec_task_round_trip)
    as (_ & l & Hl & Hnew & Hold).
  - unfold Int64.in_range, Int64.MinInt64, Int64.MaxInt64. simpl. lia.
  - rewrite <- Hok. apply tuple3_eta.
  - exists l. split; [exact Hl|]. split; [exact Hnew|].
    apply (Hold 1).
    + unfold Int64.in_range, Int64.MinInt64, Int64.MaxInt64. lia.
    + simpl. lia.
    + vm_compute. reflexivity.
Defined.

Lemma X6_deleted_task_is_not_listed_witness :
  ∃ l,
    GetAllTasks (J := TextJSON.codec)
      (App.DeleteTask 1 one_done).1 = Ok l ∧
    ∀ t, t ∈ l → ID t ≠ 1.
Proof.
  destruct (X6_deleted_task_is_not_listed (J := TextJSON.codec) 1 one_done
              (App.DeleteTask 1 one_done).1
              one_done_consistent)
    as (l & Hl & Hnot & _).
  - vm_compute. reflexivity.
  - exists l. split; [exact Hl|exact Hnot].
Defined.

Lemma X7_Init_recovers_counter_witness :
  let r := Init (J := TextJSON.codec) (mkFileStorage 0) ∅ in
  nextID r.1.1 = 1 ∧
  (∃ data, r.1.2 !! counterFile = Some (File data) ∧
           unmarshalCounter (JSON := TextJSON.codec) data = Some 1) ∧
  Init (J := TextJSON.codec) (mkFileStorage 0) r.1.2 = (r.1.1, r.1.2, None).
Proof.
  intros r.
  assert (r.2 = None) as Hnone by (vm_compute; reflexivity).
  assert (nextID r.1.1 = 1) as Hone by (vm_compute; reflexivity).
  destruct (X7_Init_recovers_counter (J := TextJSON.codec)
              (mkFileStorage 0) r.1.1 ∅ r.1.2 codec_counter_round_trip)
    as (Hfile & Hagain).
  - rewrite <- Hnone. apply tuple3_eta.
  - split; [exact Hone|]. split; [|apply Hagain].
    rewrite <- Hone. exact Hfile.
Defined.

Lemma X8_Init_frame_and_errors_witness :
  let fs : FS := {[ "counter.json" := File "{" ]} in
  Init (J := TextJSON.codec) (mkFileStorage 0) fs
  = (mkFileStorage 0, fs, Some ErrParseCounter).
Proof.
  intros fs.
  set (r := Init (J := TextJSON.codec) (mkFileStorage 0) fs).
  destruct (X8_Init_frame_and_errors (J := TextJSON.codec)
              (mkFileStorage 0) r.1.1 fs r.1.2 r.2 (tuple3_eta r))
    as (_ & Hsame & _ & Hparse & _).
  destruct (Hparse "{") as [Herr Hs]; [vm_compute; reflexivity..|].
  rewrite (tuple3_eta r), Herr, Hs, Hsame; [reflexivity|].
  exists (File "{"). vm_compute. reflexivity.
Defined.

Lemma X9_ids_never_reused_witness :
  StronglySorted Z.lt
    (invocations (J := TextJSON.codec)
       [[(1, ACreateTask "a" "" 0 Low)];
        [(2, ADeleteTask 1); (3, ACreateTask "b" "" 0 Low)];
        [(4, AInitialize); (5, ACreateTask "c" "" 0 Low)]] ∅).2.
Proof.
  apply (X9_ids_never_reused (J := TextJSON.codec)).
  - exact codec_counter_round_trip.
  - vm_compute. discriminate.
Defined.

(** The ids those three runs give out. *)
Example ids_over_three_runs :
  (invocations (J := TextJSON.codec)
     [[(1, ACreateTask "a" "" 0 Low)];
      [(2, ADeleteTask 1); (3, ACreateTask "b" "" 0 Low)];
      [(4, AInitialize); (5, ACreateTask "c" "" 0 Low)]] ∅).2
  = [1; 2; 3].
Proof. vm_compute. reflexivity. Qed.

Lemma X10_service_keeps_progress_ok_witness :
  all_tasks (J := TextJSON.codec) progress_ok
    (run_app_all (J := TextJSON.codec)
       [(1, ACreateTask "a" "" 0 Low); (2, AUpdateTaskProgress 1 100);
        (3, AUpdateTaskProgress 1 40)]
       (mkFileStorage 1) ∅).2.
Proof.
  apply (X10_service_keeps_progress_ok (J := TextJSON.codec)).
  exact codec_task_round_trip.
Defined.

Lemma X11_Status_cases_witness :
  Status 10 (mkTask 1 "a" "" 5 Low false 40 1 1) = "Overdue" ∧
  Status 10 (mkTask 1 "a" "" 5 Low true 100 1 1) = "Completed" ∧
  Status 10 (mkTask 1 "a" "" 0 Low false 40 1 1) = "In Progress (40%)".
Proof.
  split; [|split].
  - apply (X11_Status_cases 10 (mkTask 1 "a" "" 5 Low false 40 1 1)).
    simpl. split; [reflexivity|split; [discriminate|lia]].
  - apply (X11_Status_cases 10 (mkTask 1 "a" "" 5 Low true 100 1 1)).
    reflexivity.
  - destruct (X11_Status_cases 10 (mkTask 1 "a" "" 0 Low false 40 1 1))
      as (_ & _ & Hprog).
    rewrite Hprog; [vm_compute; reflexivity|vm_compute; discriminate..].
Defined.

Lemma X12_truncateString_bounds_witness :
  truncateString "Write the quarterly report" 10 = Some "Write t..." ∧
  truncateString "Write" 2 = None.
Proof.
  split.
  - destruct (X12_truncateString_bounds "Write the quarterly report" 10)
      as [Hfits _].
    destruct Hfits as (r & -> & _ & _ & Hcut); [lia|].
    destruct Hcut as [_ ->]; [simpl; lia|]. reflexivity.
  - apply (X12_truncateString_bounds "Write" 2). simpl. lia.
Defined.

Lemma X13_progress_command_all_or_nothing_witness :
  let r := updateProgress (J := TextJSON.codec) 9 ["1"; "75"] one_task in
  r.2 = None ∧
  GetTask (J := TextJSON.codec) 1 r.1.1
  = Ok (mkTask 1 "a" "" 0 Medium false 75 5 9) ∧
  let r' := updateProgress (J := TextJSON.codec) 9 ["1"; "101"] one_task in
  r'.1.1 = one_task ∧ r'.1.2 = [].
Proof.
  intros r.
  assert (r.2 = None) as Hnone by (vm_compute; reflexivity).
  split; [exact Hnone|]. split.
  - destruct (X13_progress_command_all_or_nothing (J := TextJSON.codec) 9
                ["1"; "75"] one_task r.1.1 r.1.2 r.2 codec_task_round_trip
                (tuple3_eta r)) as [_ Hdone].
    destruct (Hdone Hnone)
      as (idArg & pArg & rest & id & p & t0 & Hargs & Hid & Hp & _ & Hget
          & Hnew & _).
    injection Hargs as <- <- <-.
    vm_compute in Hid. injection Hid as <-.
    vm_compute in Hp. injection Hp as <-.
    assert (t0 = record 1 "a" false 40) as ->.
    { assert (GetTask (J := TextJSON.codec) 1 one_task
              = Ok (record 1 "a" false 40)) as Hread
        by (vm_compute; reflexivity).
      rewrite Hread in Hget. by injection Hget. }
    exact Hnew.
  - intros r'.
    apply (X13_progress_command_all_or_nothing (J := TextJSON.codec) 9
             ["1"; "101"] one_task r'.1.1 r'.1.2 r'.2 codec_task_round_trip
             (tuple3_eta r')).
    vm_compute. eexists. reflexivity.
Defined.

Lemma X14_delete_command_needs_yes_witness :
  let r := deleteTask (J := TextJSON.codec) (λ s, s) "n" ["1"] one_task in
  r.1.1 = one_task.
Proof.
  intros r.
  destruct (X14_delete_command_needs_yes (J := TextJSON.codec) (λ s, s) "n"
              ["1"] one_task r.1.1 r.1.2 r.2 (tuple3_eta r))
    as (_ & Hno & _).
  apply Hno; discriminate.
Defined.

End MoreInstances.
